(** * Video thumbnail utilities: a shallow embedding

    The development follows [src/utils/thumbnailGenerator.ts]
    ([generateThumbnailFromVideo], [createThumbnailFileName],
    [batchGenerateThumbnails], [isValidVideoFile]) and the part of
    [src/components/ThumbnailUploader.tsx] that drives them ([handleFiles]).

    The browser is not part of the repository.  Every call the code makes
    into it is recorded as an [Event] of a trace, and every answer the
    browser gives is read from an oracle ([Host]); the theorems quantify over
    all oracles. *)

From Stdlib Require Import List String Ascii Bool Arith NArith ZArith Lia.
From Stdlib Require Import DecimalString.
From Stdlib Require DecimalNat DecimalFacts.
From Stdlib Require Import Floats.SpecFloat.
Import ListNotations.

Local Open Scope string_scope.
Local Open Scope list_scope.

(** ** JavaScript numbers

    A JavaScript [number] is an IEEE 754 binary64 value; [spec_float] is the
    Standard Library's specification of these values (no NaN payload). *)

Definition number : Type := spec_float.

Definition prec : Z := 53.
Definition emax : Z := 1024.

(** The literals appearing in the source. *)
Definition num_1 : number := S754_finite false 4503599627370496 (-52).
Definition num_100 : number := S754_finite false 7036874417766400 (-46).
(** [0.8] is not representable; the literal denotes the nearest double,
    0x1.999999999999ap-1. *)
Definition num_0_8 : number := S754_finite false 7205759403792794 (-53).
Definition num_0 : number := S754_zero false.
Definition pos_infinity : number := S754_infinity false.

(** Conversion of an array index or length to a number (exact below 2^53). *)
Definition number_of_nat (n : nat) : number :=
  binary_normalize prec emax (Z.of_nat n) 0 false.

Definition num_div (x y : number) : number := SFdiv prec emax x y.
Definition num_mul (x y : number) : number := SFmul prec emax x y.
Definition num_lt (x y : number) : bool := SFltb x y.
Definition num_le (x y : number) : bool := SFleb x y.

Definition is_nan (x : number) : bool :=
  match x with S754_nan => true | _ => false end.

(** One round of the loop of ECMAScript's [Math.min]: negative zero is below
    positive zero, otherwise the smaller value wins. *)
Definition min_step (lowest x : number) : number :=
  match x, lowest with
  | S754_zero true, S754_zero false => x
  | _, _ => if num_lt x lowest then x else lowest
  end.

(** [Math.min(a, b)]: NaN as soon as one argument is NaN, else the fold of
    [min_step] from +Infinity. *)
Definition Math_min (a b : number) : number :=
  if is_nan a || is_nan b then S754_nan
  else fold_left min_step [a; b] pos_infinity.

(** ** Strings and the file-name regular expression *)

(** The character class [[^/.]]. *)
Definition ext_char (c : ascii) : bool :=
  negb (Ascii.eqb c "/") && negb (Ascii.eqb c ".").

(** [[^/.]+$] tried at the head of [s]: the greedy run of class characters
    must be non-empty and must reach the end of the input (there is no [m]
    flag, so [$] is the end of the string only). *)
Fixpoint ext_run (s : string) : bool :=
  match s with
  | EmptyString => false
  | String c EmptyString => ext_char c
  | String c rest => ext_char c && ext_run rest
  end.

(** [\.[^/.]+$] tried at the head of [s]. *)
Definition match_at (s : string) : bool :=
  match s with
  | EmptyString => false
  | String c rest => Ascii.eqb c "." && ext_run rest
  end.

(** [s.replace(/\.[^/.]+$/, '')]: the matcher tries the start positions from
    left to right; the first match (which extends to the end of the input) is
    replaced by the empty string, and without a match [s] is returned. *)
Fixpoint replace_final_extension (s : string) : string :=
  if match_at s then EmptyString
  else match s with
       | EmptyString => EmptyString
       | String c rest => String c (replace_final_extension rest)
       end.

(** ** Files, blobs and object URLs *)

(** A [File]: the declared name and media type, and the bytes. *)
Record File : Type := mkFile {
  name : string;
  type : string;
  bytes : list N
}.

(** An encoded image as [canvas.toBlob] hands it to its callback: the media
    type and quality it was asked for, the size of the canvas bitmap, and the
    frame painted on it (source file and requested playback position). *)
Record Blob : Type := mkBlob {
  blob_type : string;
  blob_quality : number;
  blob_width : N;
  blob_height : N;
  blob_source : File;
  blob_time : number
}.

(** Object URLs are opaque; the n-th URL minted is [BlobURL n]. *)
Inductive URL : Type := BlobURL (id : nat).

Inductive UrlTarget : Type :=
| OfFile (f : File)
| OfBlob (b : Blob).

(** The browser's blob URL store, in order of creation. *)
Definition UrlStore : Type := list UrlTarget.

Definition createObjectURL (target : UrlTarget) (store : UrlStore)
  : URL * UrlStore :=
  (BlobURL (List.length store), store ++ [target]).

Definition resolveURL (u : URL) (store : UrlStore) : option UrlTarget :=
  match u with BlobURL id => nth_error store id end.

(** Thrown and rejected values: [Error] objects, told apart by message. *)
Inductive JsError : Type := MkError (message : string).

(** ** The browser oracle for one extraction *)

(** After [video.load()]: [loadedmetadata] fires, with the dimensions and
    the duration of the video; or [error] fires; or neither does. *)
Inductive LoadOutcome : Type :=
| LoadedMetadata (videoWidth videoHeight : N) (duration : number)
| LoadError
| LoadStalls.

(** After the assignment to [video.currentTime]: [seeked] fires; or [error]
    fires; or neither does; or the assignment itself throws (the value is not
    finite).  Nothing catches an exception of the [loadedmetadata] listener,
    so in the last case no seek is under way and the promise stays as it
    is. *)
Inductive SeekOutcome : Type :=
| Seeked
| SeekError
| SeekStalls
| SeekThrows (e : JsError).

(** [ctx.drawImage] paints the frame or throws; [canvas.toBlob] hands its
    callback a blob or [null], or throws. *)
Inductive DrawOutcome : Type :=
| Drawn
| DrawThrows (e : JsError).

Inductive ToBlobOutcome : Type :=
| BlobReady
| BlobNull
| ToBlobThrows (e : JsError).

(** What the browser does during one call of [generateThumbnailFromVideo]:
    whether [getContext('2d')] returns a context; which of [loadedmetadata]
    and [error] fires after [load()]; what follows the assignment to
    [currentTime]; whether [drawImage] and [toBlob] throw, and whether the
    encoder hands a blob or [null] to the callback. *)
Record Host : Type := mkHost {
  contextAvailable : bool;
  onLoad : LoadOutcome;
  onSeek : number -> SeekOutcome;
  onDrawImage : N -> N -> DrawOutcome;
  onToBlob : N -> N -> string -> number -> ToBlobOutcome
}.

(** The browser during a batch: its behaviour in the extraction started by
    loop iteration [i] on file [f]. *)
Definition Browser : Type := nat -> File -> Host.

(** ** Records exchanged with the user interface *)

Record BatchResult : Type := mkResult {
  file : File;
  thumbnail : URL;
  fileName : string
}.

Record VideoThumbnailData : Type := mkData {
  data_src : URL;
  data_thumbnail : URL;
  data_title : string;
  data_aspectRatio : string
}.

(** ** Traces *)

(** What the user interface does: the component's state setters, [alert]
    and the notification of its parent.  Callbacks handed to the utilities
    act on the user interface only. *)
Inductive UiEvent : Type :=
| Alert (msg : string)
| SetProcessing (b : bool)
| SetProgress (percent : number)
| SetGeneratedThumbnails (l : list VideoThumbnailData)
| ThumbnailsGenerated (l : list VideoThumbnailData).

(** What the utilities do: [Extract] is a call of
    [generateThumbnailFromVideo], [Resolve] and [Reject] the settlement of
    the promise it returned, [Progress] a call of the progress callback. *)
Inductive Event : Type :=
| Extract (f : File) (timeInSeconds : number)
| GetContext2d (ok : bool)
| OpenVideo (src : URL)
| SetCanvasSize (width height : N)
| SetCurrentTime (t : number)
| DrawImage (dx dy dw dh : N)
| ToBlob (mime : string) (quality : number)
| Resolve (u : URL)
| Reject (e : JsError)
| Progress (completed total : nat)
| ConsoleError (msg : string) (e : JsError)
| Ui (e : UiEvent).

Definition Trace : Type := list Event.

(** The state of a promise once the event loop has run dry. *)
Inductive Settled : Type :=
| Resolved (u : URL)
| Rejected (e : JsError)
| Pending.

(** The optional progress callback: the events it performs and the
    exception it throws, if any. *)
Definition ProgressCallback : Type :=
  nat -> nat -> list UiEvent * option JsError.

(** ** [generateThumbnailFromVideo] *)

Definition err_no_context : JsError := MkError "Canvas context not available".
Definition err_video_load : JsError := MkError "Video failed to load".
Definition err_no_blob : JsError := MkError "Failed to create thumbnail blob".

(** The [seeked] listener. *)
Definition onSeeked (h : Host) (videoFile : File) (canvasWidth canvasHeight : N)
    (currentTime : number) (store : UrlStore) : Trace * Settled * UrlStore :=
  match onDrawImage h canvasWidth canvasHeight with
  | DrawThrows e =>
      ([DrawImage 0 0 canvasWidth canvasHeight; Reject e], Rejected e, store)
  | Drawn =>
      match onToBlob h canvasWidth canvasHeight "image/jpeg" num_0_8 with
      | ToBlobThrows e =>
          ([DrawImage 0 0 canvasWidth canvasHeight; ToBlob "image/jpeg" num_0_8;
            Reject e], Rejected e, store)
      | BlobNull =>
          ([DrawImage 0 0 canvasWidth canvasHeight; ToBlob "image/jpeg" num_0_8;
            Reject err_no_blob], Rejected err_no_blob, store)
      | BlobReady =>
          let blob := mkBlob "image/jpeg" num_0_8 canvasWidth canvasHeight
                             videoFile currentTime in
          let '(thumbnailUrl, store') := createObjectURL (OfBlob blob) store in
          ([DrawImage 0 0 canvasWidth canvasHeight; ToBlob "image/jpeg" num_0_8;
            Resolve thumbnailUrl], Resolved thumbnailUrl, store')
      end
  end.

(** The [loadedmetadata] listener and what the seek it requests leads to. *)
Definition onLoadedMetadata (h : Host) (videoFile : File)
    (timeInSeconds : number) (videoWidth videoHeight : N) (duration : number)
    (store : UrlStore) : Trace * Settled * UrlStore :=
  let canvasWidth := videoWidth in
  let canvasHeight := videoHeight in
  let currentTime := Math_min timeInSeconds duration in
  let tr := [SetCanvasSize canvasWidth canvasHeight; SetCurrentTime currentTime] in
  match onSeek h currentTime with
  | SeekThrows _ => (tr, Pending, store)
  | SeekStalls => (tr, Pending, store)
  | SeekError => (tr ++ [Reject err_video_load], Rejected err_video_load, store)
  | Seeked =>
      let '(tr', out, store') :=
        onSeeked h videoFile canvasWidth canvasHeight currentTime store in
      (tr ++ tr', out, store')
  end.

Definition generateThumbnailFromVideo (h : Host) (videoFile : File)
    (timeInSeconds : number) (store : UrlStore) : Trace * Settled * UrlStore :=
  if negb (contextAvailable h) then
    ([Extract videoFile timeInSeconds; GetContext2d false; Reject err_no_context],
     Rejected err_no_context, store)
  else
    let '(src, store1) := createObjectURL (OfFile videoFile) store in
    let tr := [Extract videoFile timeInSeconds; GetContext2d true; OpenVideo src] in
    match onLoad h with
    | LoadStalls => (tr, Pending, store1)
    | LoadError => (tr ++ [Reject err_video_load], Rejected err_video_load, store1)
    | LoadedMetadata videoWidth videoHeight duration =>
        let '(tr', out, store2) :=
          onLoadedMetadata h videoFile timeInSeconds videoWidth videoHeight
                           duration store1 in
        (tr ++ tr', out, store2)
    end.

(** ** [createThumbnailFileName] *)

Definition createThumbnailFileName (videoFileName : string) : string :=
  let nameWithoutExtension := replace_final_extension videoFileName in
  nameWithoutExtension ++ "-thumb.jpg".

(** ** [isValidVideoFile] *)

Definition validTypes : list string :=
  ["video/mp4"; "video/webm"; "video/ogg"; "video/quicktime"; "video/x-msvideo"].

(** [Array.prototype.includes] on strings: strict equality with an element. *)
Definition includes (l : list string) (x : string) : bool :=
  existsb (fun y => String.eqb y x) l.

Definition isValidVideoFile (f : File) : bool :=
  includes validTypes (type f).

(** ** [batchGenerateThumbnails] *)

(** The default of the parameter [timeInSeconds] of both functions, for
    callers that leave the argument out. *)
Definition default_timeInSeconds : number := num_1.

Definition failed_message (f : File) : string :=
  "Failed to generate thumbnail for " ++ name f ++ ":".

(** [onProgress?.(completed, total)] inside the [try] block: nothing when the
    callback is absent; an exception of the callback lands in the [catch]
    clause of the same iteration. *)
Definition callProgress (onProgress : option ProgressCallback)
    (f : File) (completed total : nat) : Trace :=
  match onProgress with
  | None => []
  | Some cb =>
      let '(tr, thrown) := cb completed total in
      Progress completed total :: map Ui tr ++
        match thrown with
        | Some error => [ConsoleError (failed_message f) error]
        | None => []
        end
  end.

(** The [for] loop from index [i] on; [rest] is [videoFiles] from index [i],
    [total] is [videoFiles.length] and [results] the array built so far.  The
    outcome is [None] when an awaited promise never settles, and the array
    returned otherwise: the whole body of the loop is inside [try], and the
    [catch] clause only writes to the console, so the promise of the
    function is never rejected. *)
Fixpoint batch_loop (browser : Browser) (total : nat) (timeInSeconds : number)
    (onProgress : option ProgressCallback) (i : nat) (rest : list File)
    (results : list BatchResult) (store : UrlStore)
  : Trace * option (list BatchResult) * UrlStore :=
  match rest with
  | [] => ([], Some results, store)
  | f :: rest' =>
      let '(tr, out, store1) :=
        generateThumbnailFromVideo (browser i f) f timeInSeconds store in
      match out with
      | Pending => (tr, None, store1)
      | Rejected error =>
          let '(tr', r, store2) :=
            batch_loop browser total timeInSeconds onProgress (i + 1) rest'
                       results store1 in
          (tr ++ ConsoleError (failed_message f) error :: tr', r, store2)
      | Resolved thumbnail =>
          let fileName := createThumbnailFileName (name f) in
          let results' := results ++ [mkResult f thumbnail fileName] in
          let trp := callProgress onProgress f (i + 1) total in
          let '(tr', r, store2) :=
            batch_loop browser total timeInSeconds onProgress (i + 1) rest'
                       results' store1 in
          (tr ++ trp ++ tr', r, store2)
      end
  end.

Definition batchGenerateThumbnails (browser : Browser) (videoFiles : list File)
    (timeInSeconds : number) (onProgress : option ProgressCallback)
    (store : UrlStore) : Trace * option (list BatchResult) * UrlStore :=
  batch_loop browser (List.length videoFiles) timeInSeconds onProgress 0
             videoFiles [] store.

(** ** [handleFiles] of the uploader component *)

(** [String(n)] for an array index. *)
Definition string_of_nat (n : nat) : string :=
  NilZero.string_of_uint (Nat.to_uint n).

(** [s.padStart(targetLength, c)] for a one-character filler. *)
Definition padStart (targetLength : nat) (c : ascii) (s : string) : string :=
  string_of_list_ascii (repeat c (targetLength - String.length s)) ++ s.

(** The callback the component passes: [setProgress((completed / total) * 100)]. *)
Definition uploaderProgress : ProgressCallback :=
  fun completed total =>
    ([SetProgress (num_mul (num_div (number_of_nat completed)
                                    (number_of_nat total)) num_100)], None).

(** [results.map((result, index) => ...)], from index [index] on. *)
Fixpoint thumbnailData_from (index : nat) (results : list BatchResult)
    (store : UrlStore) : list VideoThumbnailData * UrlStore :=
  match results with
  | [] => ([], store)
  | result :: results' =>
      let '(src, store1) := createObjectURL (OfFile (file result)) store in
      let item := mkData src (thumbnail result)
                         ("VIDEO " ++ padStart 2 "0" (string_of_nat (index + 1)))
                         "video" in
      let '(items, store2) := thumbnailData_from (index + 1) results' store1 in
      (item :: items, store2)
  end.

(** [handleFiles]; the boolean tells whether the call ran to its end. *)
Definition handleFiles (browser : Browser)
    (onThumbnailsGenerated : option (list VideoThumbnailData -> option JsError))
    (files : list File) (store : UrlStore) : Trace * bool * UrlStore :=
  let videoFiles := filter isValidVideoFile files in
  if Nat.eqb (List.length videoFiles) 0 then
    ([Ui (Alert "Please select valid video files (MP4, WebM, OGG, MOV, AVI)")],
     true, store)
  else
    let '(tr, out, store1) :=
      batchGenerateThumbnails browser videoFiles num_1 (Some uploaderProgress)
                              store in
    match out with
    | None =>
        ([Ui (SetProcessing true); Ui (SetProgress num_0)] ++ tr, false, store1)
    | Some results =>
        let '(thumbnailData, store2) := thumbnailData_from 0 results store1 in
        let notify :=
          match onThumbnailsGenerated with
          | None => []
          | Some cb =>
              Ui (ThumbnailsGenerated thumbnailData) ::
                match cb thumbnailData with
                | Some error =>
                    [ConsoleError "Error processing videos:" error;
                     Ui (Alert "Error processing videos. Please try again.")]
                | None => []
                end
          end in
        ([Ui (SetProcessing true); Ui (SetProgress num_0)] ++ tr ++
           [Ui (SetGeneratedThumbnails thumbnailData)] ++ notify ++
           [Ui (SetProcessing false)],
         true, store2)
    end.

(** ** Observations on traces and results *)

(** The files on which the extractor was invoked, in order of invocation. *)
Fixpoint extracted (tr : Trace) : list File :=
  match tr with
  | [] => []
  | Extract f _ :: tr' => f :: extracted tr'
  | _ :: tr' => extracted tr'
  end.

(** The arguments of the successive calls of the progress callback. *)
Fixpoint progress_calls (tr : Trace) : list (nat * nat) :=
  match tr with
  | [] => []
  | Progress completed total :: tr' => (completed, total) :: progress_calls tr'
  | _ :: tr' => progress_calls tr'
  end.

(** The diagnostics written with [console.error]. *)
Fixpoint logged (tr : Trace) : list (string * JsError) :=
  match tr with
  | [] => []
  | ConsoleError msg e :: tr' => (msg, e) :: logged tr'
  | _ :: tr' => logged tr'
  end.

(** The positions assigned to [video.currentTime]. *)
Fixpoint seek_targets (tr : Trace) : list number :=
  match tr with
  | [] => []
  | SetCurrentTime t :: tr' => t :: seek_targets tr'
  | _ :: tr' => seek_targets tr'
  end.

(** How an extraction ends, whatever the URL it resolves with. *)
Inductive Verdict : Type :=
| Succeeds
| Fails (e : JsError)
| Hangs.

Definition verdict_of (s : Settled) : Verdict :=
  match s with
  | Resolved _ => Succeeds
  | Rejected e => Fails e
  | Pending => Hangs
  end.

Definition verdict (h : Host) (f : File) (timeInSeconds : number) : Verdict :=
  verdict_of (snd (fst (generateThumbnailFromVideo h f timeInSeconds []))).

(** The inputs of a batch from index [i] on, each with its index and the
    verdict of its extraction. *)
Fixpoint verdicts (browser : Browser) (timeInSeconds : number) (i : nat)
    (files : list File) : list (nat * File * Verdict) :=
  match files with
  | [] => []
  | f :: files' =>
      (i, f, verdict (browser i f) f timeInSeconds)
        :: verdicts browser timeInSeconds (i + 1) files'
  end.

Definition succeeded (x : nat * File * Verdict) : bool :=
  match snd x with Succeeds => true | _ => false end.
Definition failed (x : nat * File * Verdict) : bool :=
  match snd x with Fails _ => true | _ => false end.
Definition hangs (x : nat * File * Verdict) : bool :=
  match snd x with Hangs => true | _ => false end.

(** What the batch loop reports to the progress callback: for each item
    whose extraction succeeded, its index plus one and the length of the
    input array. *)
Definition reports (onProgress : option ProgressCallback) (total : nat)
    (items : list (nat * File * Verdict)) : list (nat * nat) :=
  match onProgress with
  | Some _ => map (fun x => (fst (fst x) + 1, total)) (filter succeeded items)
  | None => []
  end.

(** Extraction calls never overlap: a call is made only when the previous
    one has settled.  [busy] tells whether a call is in flight. *)
Fixpoint sequential (busy : bool) (tr : Trace) : bool :=
  match tr with
  | [] => true
  | Extract _ _ :: tr' => negb busy && sequential true tr'
  | Resolve _ :: tr' => busy && sequential false tr'
  | Reject _ :: tr' => busy && sequential false tr'
  | _ :: tr' => sequential busy tr'
  end.

(** ** The naming convention in the words of its description *)

Definition no_dot_or_slash (s : string) : Prop :=
  forall c, In c (list_ascii_of_string s) -> c <> "."%char /\ c <> "/"%char.

(** [fileName] ends with the extension [ext]: a dot followed by a non-empty
    run of characters other than dot and slash, after the stem [stem]. *)
Definition FinalExtension (fileName stem ext : string) : Prop :=
  fileName = (stem ++ "." ++ ext)%string /\ ext <> "" /\ no_dot_or_slash ext.

Definition has_no_final_extension (fileName : string) : Prop :=
  forall stem ext, ~ FinalExtension fileName stem ext.

(** ** The failure taxonomy of the extractor

    The circumstances under which an extraction with offset [timeInSeconds]
    fails on the browser behaviour [h], and the error it then fails with.
    The first four are the three kinds of the error taxonomy (a decode
    failure can show at load time or during the seek); the last two are the
    exceptions of [drawImage] and [toBlob], passed on by the [catch] clause
    of the [seeked] listener. *)

Inductive FailureKind : Type :=
| EnvironmentError
| DecodeError
| EncodeError
| ThrownWhileCapturing.

Inductive Failure (h : Host) (timeInSeconds : number)
  : FailureKind -> JsError -> Prop :=
| no_canvas_context :
    contextAvailable h = false ->
    Failure h timeInSeconds EnvironmentError err_no_context
| error_on_load :
    contextAvailable h = true ->
    onLoad h = LoadError ->
    Failure h timeInSeconds DecodeError err_video_load
| error_on_seek w hh duration :
    contextAvailable h = true ->
    onLoad h = LoadedMetadata w hh duration ->
    onSeek h (Math_min timeInSeconds duration) = SeekError ->
    Failure h timeInSeconds DecodeError err_video_load
| no_output_bytes w hh duration :
    contextAvailable h = true ->
    onLoad h = LoadedMetadata w hh duration ->
    onSeek h (Math_min timeInSeconds duration) = Seeked ->
    onDrawImage h w hh = Drawn ->
    onToBlob h w hh "image/jpeg" num_0_8 = BlobNull ->
    Failure h timeInSeconds EncodeError err_no_blob
| drawImage_throws w hh duration e :
    contextAvailable h = true ->
    onLoad h = LoadedMetadata w hh duration ->
    onSeek h (Math_min timeInSeconds duration) = Seeked ->
    onDrawImage h w hh = DrawThrows e ->
    Failure h timeInSeconds ThrownWhileCapturing e
| toBlob_throws w hh duration e :
    contextAvailable h = true ->
    onLoad h = LoadedMetadata w hh duration ->
    onSeek h (Math_min timeInSeconds duration) = Seeked ->
    onDrawImage h w hh = Drawn ->
    onToBlob h w hh "image/jpeg" num_0_8 = ToBlobThrows e ->
    Failure h timeInSeconds ThrownWhileCapturing e.

(** The video resource was opened for decoding. *)
Definition opened (tr : Trace) : bool :=
  existsb (fun ev => match ev with OpenVideo _ => true | _ => false end) tr.

(** ** Sample inputs *)

Definition clip : File := mkFile "clip.mp4" "video/mp4" [0%N; 1%N].
Definition broken : File := mkFile "broken.mp4" "video/mp4" [].
Definition archive : File := mkFile "archive.tar.mp4" "video/webm" [7%N].
Definition photo : File := mkFile "photo.jpg" "image/jpeg" [9%N].
Definition endless : File := mkFile "endless.mp4" "video/mp4" [4%N].

Definition num_10 : number := number_of_nat 10.
Definition num_30 : number := number_of_nat 30.

(** A browser that decodes and encodes without trouble a 640x360 video of
    duration [d]. *)
Definition healthy (d : number) : Host :=
  mkHost true (LoadedMetadata 640 360 d) (fun _ => Seeked) (fun _ _ => Drawn)
         (fun _ _ _ _ => BlobReady).

(** The [error] event fires instead of [loadedmetadata]. *)
Definition undecodable : Host :=
  mkHost true LoadError (fun _ => Seeked) (fun _ _ => Drawn)
         (fun _ _ _ _ => BlobReady).

(** [drawImage] throws. *)
Definition draw_fails : Host :=
  mkHost true (LoadedMetadata 640 360 num_10) (fun _ => Seeked)
         (fun _ _ => DrawThrows (MkError "NS_ERROR_NOT_AVAILABLE"))
         (fun _ _ _ _ => BlobReady).

(** The encoder hands [null] to the callback of [toBlob]. *)
Definition encoder_fails : Host :=
  mkHost true (LoadedMetadata 640 360 num_10) (fun _ => Seeked)
         (fun _ _ => Drawn) (fun _ _ _ _ => BlobNull).

(** Neither [loadedmetadata] nor [error] ever fires. *)
Definition stalled : Host :=
  mkHost true LoadStalls (fun _ => Seeked) (fun _ _ => Drawn)
         (fun _ _ _ _ => BlobReady).

(** Every file decodes, except the ones named [broken.mp4] (the [error]
    event fires) and [endless.mp4] (no event ever fires). *)
Definition sample_browser : Browser :=
  fun _ f => if String.eqb (name f) "broken.mp4" then undecodable
             else if String.eqb (name f) "endless.mp4" then stalled
             else healthy num_10.

Definition silent_callback : ProgressCallback := fun _ _ => ([], None).

(** ** [downloadThumbnail] and the document *)

(** The part of the document the download touches: the children of
    [document.body], each node known by an identifier, and the identifier the
    next created element gets. *)
Record Document : Type := mkDocument {
  next_node : nat;
  body : list nat
}.

(** [link.click()] on an anchor with these [href] and [download]
    attributes. *)
Inductive Click : Type := MkClick (href : URL) (download : string).

Definition createElement (doc : Document) : nat * Document :=
  (next_node doc, mkDocument (S (next_node doc)) (body doc)).

(** [document.body.appendChild(node)]: the node becomes the last child; a
    node that is a child already is moved. *)
Definition appendChild (node : nat) (doc : Document) : Document :=
  mkDocument (next_node doc) (remove Nat.eq_dec node (body doc) ++ [node]).

(** [document.body.removeChild(node)]: [None] stands for the [NotFoundError]
    thrown when the node is not a child. *)
Definition removeChild (node : nat) (doc : Document) : option Document :=
  if in_dec Nat.eq_dec node (body doc)
  then Some (mkDocument (next_node doc) (remove Nat.eq_dec node (body doc)))
  else None.

Definition err_not_found : JsError := MkError "NotFoundError".

(** [downloadThumbnail]: the clicks made, the document left behind and the
    exception thrown, if any. *)
Definition downloadThumbnail (thumbnailUrl : URL) (fileName : string)
    (doc : Document) : list Click * Document * option JsError :=
  let '(link, doc1) := createElement doc in
  let doc2 := appendChild link doc1 in
  match removeChild link doc2 with
  | Some doc3 => ([MkClick thumbnailUrl fileName], doc3, None)
  | None => ([MkClick thumbnailUrl fileName], doc2, Some err_not_found)
  end.

(** ** The uploader component *)

(** The state of [ThumbnailUploader]. *)
Record Uploader : Type := mkUploader {
  dragActive : bool;
  processing : bool;
  progress : number;
  generatedThumbnails : list VideoThumbnailData
}.

Definition initialUploader : Uploader := mkUploader false false num_0 [].

(** The effect of a user-interface event on the state: the three setters
    used by [handleFiles] and [clearThumbnails]; [alert] and the notification
    of the parent leave the state alone. *)
Definition setState (e : UiEvent) (st : Uploader) : Uploader :=
  match e with
  | SetProcessing b =>
      mkUploader (dragActive st) b (progress st) (generatedThumbnails st)
  | SetProgress p =>
      mkUploader (dragActive st) (processing st) p (generatedThumbnails st)
  | SetGeneratedThumbnails l =>
      mkUploader (dragActive st) (processing st) (progress st) l
  | Alert _ => st
  | ThumbnailsGenerated _ => st
  end.

(** The state after the setter calls of a trace, in order. *)
Fixpoint render (tr : Trace) (st : Uploader) : Uploader :=
  match tr with
  | [] => st
  | Ui e :: tr' => render tr' (setState e st)
  | _ :: tr' => render tr' st
  end.

(** [handleDrag]: the type of the event decides. *)
Definition handleDrag (eventType : string) (st : Uploader) : Uploader :=
  if String.eqb eventType "dragenter" || String.eqb eventType "dragover" then
    mkUploader true (processing st) (progress st) (generatedThumbnails st)
  else if String.eqb eventType "dragleave" then
    mkUploader false (processing st) (progress st) (generatedThumbnails st)
  else st.

(** The name [downloadAllThumbnails] and [handleDownload] give to the
    thumbnail shown at position [index]. *)
Definition downloadName (index : nat) : string :=
  "thumbnail-" ++ padStart 2 "0" (string_of_nat (index + 1)) ++ ".jpg".

(** [generatedThumbnails.forEach((item, index) => ...)] of
    [downloadAllThumbnails], from index [index] on; an exception ends the
    iteration. *)
Fixpoint downloadAll_from (index : nat) (items : list VideoThumbnailData)
    (doc : Document) : list Click * Document * option JsError :=
  match items with
  | [] => ([], doc, None)
  | item :: items' =>
      let '(clicks, doc1, thrown) :=
        downloadThumbnail (data_thumbnail item) (downloadName index) doc in
      match thrown with
      | Some e => (clicks, doc1, Some e)
      | None =>
          let '(clicks', doc2, thrown') :=
            downloadAll_from (index + 1) items' doc1 in
          (clicks ++ clicks', doc2, thrown')
      end
  end.

Definition downloadAllThumbnails (st : Uploader) (doc : Document)
  : list Click * Document * option JsError :=
  downloadAll_from 0 (generatedThumbnails st) doc.

(** [handleDownload] of the [ThumbnailPreview] at position [index], showing
    [data]. *)
Definition handleDownload (data : VideoThumbnailData) (index : nat)
    (doc : Document) : list Click * Document * option JsError :=
  downloadThumbnail (data_thumbnail data) (downloadName index) doc.

(** [clearThumbnails]: the calls of [URL.revokeObjectURL] are appended to
    the log of revocations, then the state is emptied. *)
Definition clearThumbnails (st : Uploader) (revocations : list URL)
  : list URL * Uploader :=
  (revocations ++
     flat_map (fun item => [data_src item; data_thumbnail item])
              (generatedThumbnails st),
   setState (SetProgress num_0) (setState (SetGeneratedThumbnails []) st)).

(** [handleThumbnailsGenerated] of [AdminPanel], the callback it hands to
    the uploader: [onVideoDataUpdate?.(thumbnails)]. *)
Definition handleThumbnailsGenerated
    (onVideoDataUpdate : option (list VideoThumbnailData -> option JsError))
    (thumbnails : list VideoThumbnailData) : option JsError :=
  match onVideoDataUpdate with
  | Some cb => cb thumbnails
  | None => None
  end.

(** ** The page as a transition system *)

Definition url_id (u : URL) : nat := match u with BlobURL id => id end.

Definition URL_eqb (u v : URL) : bool := Nat.eqb (url_id u) (url_id v).

(** Everything the handlers of the uploader act on. *)
Record World : Type := mkWorld {
  urls : UrlStore;
  revocations : list URL;
  document : Document;
  clicks : list Click;
  uploader : Uploader
}.

Definition initialWorld : World :=
  mkWorld [] [] (mkDocument 0 []) [] initialUploader.

(** A blob URL can be dereferenced when it was minted and has not been
    revoked. *)
Definition live (w : World) (u : URL) : bool :=
  match resolveURL u (urls w) with
  | Some _ => negb (existsb (URL_eqb u) (revocations w))
  | None => false
  end.

(** What the user does, with the behaviour of the browser during the
    extractions it starts. *)
Inductive Action : Type :=
| DragEvent (eventType : string)
| DropFiles (browser : Browser) (files : list File)
| InputFiles (browser : Browser) (files : option (list File))
| DownloadAll
| DownloadOne (index : nat)
| Clear.

Definition runHandleFiles (browser : Browser)
    (notify : option (list VideoThumbnailData -> option JsError))
    (files : list File) (w : World) : World :=
  let '(tr, _, store') := handleFiles browser notify files (urls w) in
  mkWorld store' (revocations w) (document w) (clicks w)
          (render tr (uploader w)).

(** One handler call: [handleDrag], [handleDrop], [handleFileInput],
    [downloadAllThumbnails], [handleDownload] of the preview at a position
    that is shown, [clearThumbnails]. *)
Definition step
    (notify : option (list VideoThumbnailData -> option JsError))
    (a : Action) (w : World) : World :=
  match a with
  | DragEvent eventType =>
      mkWorld (urls w) (revocations w) (document w) (clicks w)
              (handleDrag eventType (uploader w))
  | DropFiles browser files =>
      let st := uploader w in
      let w1 := mkWorld (urls w) (revocations w) (document w) (clicks w)
                        (mkUploader false (processing st) (progress st)
                                    (generatedThumbnails st)) in
      runHandleFiles browser notify files w1
  | InputFiles browser (Some files) => runHandleFiles browser notify files w
  | InputFiles _ None => w
  | DownloadAll =>
      let '(cs, doc, _) := downloadAllThumbnails (uploader w) (document w) in
      mkWorld (urls w) (revocations w) doc (clicks w ++ cs) (uploader w)
  | DownloadOne index =>
      match nth_error (generatedThumbnails (uploader w)) index with
      | Some data =>
          let '(cs, doc, _) := handleDownload data index (document w) in
          mkWorld (urls w) (revocations w) doc (clicks w ++ cs) (uploader w)
      | None => w
      end
  | Clear =>
      let '(revocations', st) := clearThumbnails (uploader w) (revocations w) in
      mkWorld (urls w) revocations' (document w) (clicks w) st
  end.

Definition run
    (notify : option (list VideoThumbnailData -> option JsError))
    (actions : list Action) (w : World) : World :=
  fold_left (fun w a => step notify a w) actions w.

(** The URLs shown by the component. *)
Definition shown (st : Uploader) : list URL :=
  flat_map (fun item => [data_src item; data_thumbnail item])
           (generatedThumbnails st).

(** Reading a decimal number back, leading zeros allowed. *)
Definition nat_of_string (s : string) : option nat :=
  option_map Nat.of_uint (NilEmpty.uint_of_string s).

(** The URLs passed to [video.src]. *)
Fixpoint opened_urls (tr : Trace) : list URL :=
  match tr with
  | [] => []
  | OpenVideo u :: tr' => u :: opened_urls tr'
  | _ :: tr' => opened_urls tr'
  end.

(** A result of a batch is sound for a URL store: its name derives from the
    name of its file, and its URL designates a JPEG image of quality 0.8 made
    from that file. *)
Definition sound_result (store : UrlStore) (r : BatchResult) : Prop :=
  fileName r = createThumbnailFileName (name (file r)) /\
  exists b,
    resolveURL (thumbnail r) store = Some (OfBlob b) /\
    blob_source b = file r /\ blob_type b = "image/jpeg" /\
    blob_quality b = num_0_8.

(** The nodes of a document carry identifiers already handed out. *)
Definition tidy (doc : Document) : Prop :=
  Forall (fun node => node < next_node doc) (body doc).

Definition click_href (c : Click) : URL :=
  match c with MkClick href _ => href end.

Definition click_download (c : Click) : string :=
  match c with MkClick _ download => download end.

(** What the page keeps true: only minted URLs have been revoked, none of
    them twice; the URLs of the cards shown are live and pairwise distinct;
    the document holds no node it did not create. *)
Definition consistent (w : World) : Prop :=
  Forall (fun u => url_id u < List.length (urls w)) (revocations w) /\
  NoDup (revocations w) /\
  Forall (fun u => live w u = true) (shown (uploader w)) /\
  NoDup (shown (uploader w)) /\
  tidy (document w).

(** * Properties *)

(** ** The file-name regular expression *)

Lemma ext_run_all (s : string) :
  ext_run s = true ->
  forall c, In c (list_ascii_of_string s) -> ext_char c = true.
Proof.
  induction s as [|a [|b s'] IH]; simpl; intros H c Hc.
  - contradiction.
  - destruct Hc as [<-|[]]. exact H.
  - apply andb_true_iff in H. destruct H as [Ha Hrest].
    destruct Hc as [<-|Hc]; [exact Ha|]. apply IH; assumption.
Qed.

Lemma all_ext_run (s : string) :
  s <> "" ->
  (forall c, In c (list_ascii_of_string s) -> ext_char c = true) ->
  ext_run s = true.
Proof.
  induction s as [|a [|b s'] IH]; intros Hne Hall.
  - congruence.
  - simpl. apply Hall. simpl. auto.
  - change (ext_char a && ext_run (String b s') = true).
    apply andb_true_iff. split.
    + apply Hall. simpl. auto.
    + apply IH; [discriminate|]. intros c Hc. apply Hall. simpl. auto.
Qed.

Lemma ext_char_iff (c : ascii) :
  ext_char c = true <-> c <> "."%char /\ c <> "/"%char.
Proof.
  unfold ext_char. rewrite andb_true_iff, !negb_true_iff.
  destruct (Ascii.eqb_spec c "/"), (Ascii.eqb_spec c "."); intuition congruence.
Qed.

Lemma ext_run_extension (ext : string) :
  ext <> "" -> no_dot_or_slash ext -> ext_run ext = true.
Proof.
  intros Hne Hno. apply all_ext_run; [exact Hne|].
  intros c Hc. apply ext_char_iff. apply Hno, Hc.
Qed.

Lemma extension_of_ext_run (ext : string) :
  ext_run ext = true -> ext <> "" /\ no_dot_or_slash ext.
Proof.
  intros H. split.
  - destruct ext; [discriminate H | discriminate].
  - intros c Hc. apply ext_char_iff. eapply ext_run_all; eassumption.
Qed.

Lemma ext_run_cons (a : ascii) (s : string) :
  s <> "" -> ext_run (String a s) = ext_char a && ext_run s.
Proof. destruct s; [congruence | reflexivity]. Qed.

(** A run that still contains a dot does not reach the end of the input. *)
Lemma ext_run_through_dot (s ext : string) :
  ext_run (s ++ "." ++ ext) = false.
Proof.
  induction s as [|a s IH].
  - simpl. destruct ext; reflexivity.
  - change ((String a s ++ "." ++ ext)%string) with (String a (s ++ "." ++ ext)).
    rewrite ext_run_cons, IH by (destruct s; discriminate).
    apply andb_false_r.
Qed.

Lemma replace_final_extension_eq (s : string) :
  replace_final_extension s =
  if match_at s then EmptyString
  else match s with
       | EmptyString => EmptyString
       | String c rest => String c (replace_final_extension rest)
       end.
Proof. destruct s; reflexivity. Qed.

Lemma replace_final_extension_strips (stem ext : string) :
  ext_run ext = true ->
  replace_final_extension (stem ++ "." ++ ext) = stem.
Proof.
  intros Hext. induction stem as [|a stem IH].
  - rewrite replace_final_extension_eq.
    change (match_at ("" ++ "." ++ ext)) with (true && ext_run ext).
    rewrite Hext. reflexivity.
  - change ((String a stem ++ "." ++ ext)%string)
      with (String a (stem ++ "." ++ ext)).
    rewrite replace_final_extension_eq. unfold match_at.
    rewrite ext_run_through_dot, andb_false_r. f_equal. exact IH.
Qed.

Lemma FinalExtension_cons (a : ascii) (s stem ext : string) :
  FinalExtension s stem ext -> FinalExtension (String a s) (String a stem) ext.
Proof. intros (-> & Hne & Hcs). repeat split; assumption || apply Hcs; assumption. Qed.


(** What [replace] keeps of a name is its stem when the name has a final
    extension, and the whole name otherwise. *)
Lemma replace_final_extension_cases (s : string) :
  (exists ext, FinalExtension s (replace_final_extension s) ext) \/
  (replace_final_extension s = s /\ has_no_final_extension s).
Proof.
  induction s as [|a s IH].
  - right. split; [reflexivity|].
    intros stem ext (E & _). destruct stem; discriminate E.
  - rewrite replace_final_extension_eq.
    destruct (match_at (String a s)) eqn:Hm.
    + left. exists s. unfold match_at in Hm. apply andb_true_iff in Hm.
      destruct Hm as [Ha Hrun]. apply Ascii.eqb_eq in Ha. subst a.
      destruct (extension_of_ext_run s Hrun) as [Hne Hcs].
      repeat split; assumption || apply Hcs; assumption.
    + destruct IH as [[ext HF]|[Hkeep Hno]].
      * left. exists ext. now apply FinalExtension_cons.
      * right. rewrite Hkeep. split; [reflexivity|].
        intros stem ext HF. destruct HF as (E & Hne & Hcs).
        destruct stem as [|b stem]; injection E as -> E.
        -- unfold match_at in Hm. subst s.
           rewrite (ext_run_extension ext Hne Hcs) in Hm. discriminate Hm.
        -- apply (Hno stem ext). repeat split; assumption || apply Hcs; assumption.
Qed.

(** C6: [createThumbnailFileName] returns what is kept of the input name,
    followed by [-thumb.jpg], where a name ending with a final extension
    keeps its stem, that is the name with only that last extension removed
    (and a name without one is kept whole); so [clip.mp4] gives
    [clip-thumb.jpg] and [archive.tar.mp4] gives [archive.tar-thumb.jpg]. *)
Theorem createThumbnailFileName_strips_final_extension :
  (forall fileName stem ext,
      FinalExtension fileName stem ext ->
      createThumbnailFileName fileName = (stem ++ "-thumb.jpg")%string) /\
  (forall fileName,
      exists kept,
        createThumbnailFileName fileName = (kept ++ "-thumb.jpg")%string /\
        ((exists ext, FinalExtension fileName kept ext) \/
         (kept = fileName /\ has_no_final_extension fileName))) /\
  createThumbnailFileName "clip.mp4" = "clip-thumb.jpg" /\
  createThumbnailFileName "archive.tar.mp4" = "archive.tar-thumb.jpg".
Proof.
  split; [|split; [|split; reflexivity]].
  - intros fileName stem ext (-> & Hne & Hcs). unfold createThumbnailFileName.
    now rewrite replace_final_extension_strips
      by (apply ext_run_extension; assumption).
  - intros fileName. exists (replace_final_extension fileName).
    split; [reflexivity | apply replace_final_extension_cases].
Qed.

Lemma createThumbnailFileName_strips_final_extension_witness :
  FinalExtension "holiday.2024.webm" "holiday.2024" "webm" /\
  createThumbnailFileName "holiday.2024.webm" = "holiday.2024-thumb.jpg".
Proof.
  assert (H : FinalExtension "holiday.2024.webm" "holiday.2024" "webm").
  { split; [reflexivity|]. split; [discriminate|].
    intros c Hc. simpl in Hc.
    repeat (destruct Hc as [<-|Hc]; [split; discriminate|]). contradiction. }
  split; [exact H|].
  exact (proj1 createThumbnailFileName_strips_final_extension _ _ _ H).
Defined.


Lemma length_append (s1 s2 : string) :
  String.length (s1 ++ s2) = String.length s1 + String.length s2.
Proof. induction s1 as [|a s1 IH]; simpl; [reflexivity | now rewrite IH]. Qed.



(** ** The whitelist of media types *)

(** C7: [isValidVideoFile] answers true exactly for the files whose declared
    media type is one of [video/mp4], [video/webm], [video/ogg],
    [video/quicktime], [video/x-msvideo]; true for [video/mp4] and false for
    [image/jpeg]. *)
Theorem isValidVideoFile_whitelist :
  (forall f : File,
      isValidVideoFile f = true <->
      type f = "video/mp4" \/ type f = "video/webm" \/ type f = "video/ogg" \/
      type f = "video/quicktime" \/ type f = "video/x-msvideo") /\
  (forall n b, isValidVideoFile (mkFile n "video/mp4" b) = true) /\
  (forall n b, isValidVideoFile (mkFile n "image/jpeg" b) = false).
Proof.
  split; [|split; reflexivity].
  intros f. unfold isValidVideoFile, includes, validTypes. cbn [existsb].
  rewrite !orb_true_iff, !String.eqb_eq.
  intuition (congruence || discriminate).
Qed.

Lemma isValidVideoFile_whitelist_witness :
  type archive = "video/webm" /\ isValidVideoFile archive = true.
Proof.
  split; [reflexivity|].
  apply (proj1 isValidVideoFile_whitelist archive). right; left; reflexivity.
Defined.

(** ** [Math.min] *)


Lemma SFcompare_swap (x y : number) :
  SFcompare y x = option_map CompOpp (SFcompare x y).
Proof.
  destruct x as [[|]|[|]| |s1 m1 e1], y as [[|]|[|]| |s2 m2 e2];
    try reflexivity; try (destruct s1; reflexivity);
    try (destruct s2; reflexivity).
  unfold SFcompare. destruct s1, s2; try reflexivity; simpl.
  - rewrite (Z.compare_antisym e1 e2).
    destruct (e1 ?= e2)%Z; simpl; try reflexivity.
    now rewrite (Pos.compare_cont_antisym m1 m2 Eq).
  - rewrite (Z.compare_antisym e1 e2).
    destruct (e1 ?= e2)%Z; simpl; try reflexivity.
    now rewrite (Pos.compare_cont_antisym m1 m2 Eq).
Qed.

Lemma SFeqb_refl (x : number) : is_nan x = false -> SFeqb x x = true.
Proof.
  destruct x as [[|]|[|]| |s m e]; try reflexivity; try discriminate.
  intros _. unfold SFeqb, SFcompare.
  rewrite Z.compare_refl. fold (Pos.compare m m). rewrite Pos.compare_refl.
  destruct s; reflexivity.
Qed.

(** Below the duration the requested offset is kept (up to the sign of a
    zero, which [Math.min] may turn negative). *)
Lemma Math_min_keeps (timeInSeconds duration : number) :
  num_le timeInSeconds duration = true ->
  SFeqb (Math_min timeInSeconds duration) timeInSeconds = true.
Proof.
  unfold num_le, SFleb. intros Hle.
  assert (Hlt : SFltb duration timeInSeconds = false).
  { unfold SFltb. rewrite SFcompare_swap.
    destruct (SFcompare timeInSeconds duration) as [[| |]|];
      try discriminate; reflexivity. }
  assert (Hnan : is_nan timeInSeconds = false /\ is_nan duration = false).
  { destruct timeInSeconds, duration; try discriminate; split; reflexivity. }
  destruct Hnan as [Hn1 Hn2].
  unfold Math_min. rewrite Hn1, Hn2. cbn [orb fold_left].
  assert (H1 : min_step pos_infinity timeInSeconds = timeInSeconds).
  { destruct timeInSeconds as [[|]|[|]| |s m e]; try reflexivity; discriminate. }
  rewrite H1. unfold min_step, num_lt. rewrite Hlt.
  destruct duration as [[|]|[|]| |s2 m2 e2];
    try (apply SFeqb_refl; exact Hn1).
  destruct timeInSeconds as [[|]|[|]| |s1 m1 e1];
    try reflexivity; try discriminate; apply SFeqb_refl; reflexivity.
Qed.


(** ** The extractor, branch by branch *)

Lemma resolveURL_fresh (target : UrlTarget) (store : UrlStore) :
  let '(u, store') := createObjectURL target store in
  resolveURL u store' = Some target.
Proof.
  unfold createObjectURL, resolveURL.
  rewrite nth_error_app2, Nat.sub_diag by apply Nat.le_refl. reflexivity.
Qed.

Ltac run_extractor :=
  unfold generateThumbnailFromVideo, onLoadedMetadata, onSeeked, createObjectURL;
  repeat match goal with
         | H : _ = _ |- _ => rewrite H
         end;
  cbn [negb fst snd app].

Section OneExtraction.

Variable h : Host.
Variable videoFile : File.
Variable timeInSeconds : number.
Variable store : UrlStore.

Let run := generateThumbnailFromVideo h videoFile timeInSeconds store.

Lemma extraction_without_context :
  contextAvailable h = false ->
  run = ([Extract videoFile timeInSeconds; GetContext2d false;
          Reject err_no_context], Rejected err_no_context, store).
Proof. intros Hctx. subst run. run_extractor. reflexivity. Qed.

Lemma extraction_succeeds (w hh : N) (duration : number) :
  contextAvailable h = true ->
  onLoad h = LoadedMetadata w hh duration ->
  onSeek h (Math_min timeInSeconds duration) = Seeked ->
  onDrawImage h w hh = Drawn ->
  onToBlob h w hh "image/jpeg" num_0_8 = BlobReady ->
  run =
  ([Extract videoFile timeInSeconds; GetContext2d true;
    OpenVideo (BlobURL (List.length store));
    SetCanvasSize w hh; SetCurrentTime (Math_min timeInSeconds duration);
    DrawImage 0 0 w hh; ToBlob "image/jpeg" num_0_8;
    Resolve (BlobURL (List.length (store ++ [OfFile videoFile])))],
   Resolved (BlobURL (List.length (store ++ [OfFile videoFile]))),
   (store ++ [OfFile videoFile]) ++
     [OfBlob (mkBlob "image/jpeg" num_0_8 w hh videoFile
                     (Math_min timeInSeconds duration))]).
Proof.
  intros Hctx Hload Hseek Hdraw Hblob. subst run. run_extractor. reflexivity.
Qed.

Lemma extraction_seek_target (w hh : N) (duration : number) :
  contextAvailable h = true ->
  onLoad h = LoadedMetadata w hh duration ->
  seek_targets (fst (fst run)) = [Math_min timeInSeconds duration].
Proof.
  intros Hctx Hload. subst run. run_extractor.
  destruct (onSeek h _); [|reflexivity..].
  destruct (onDrawImage h w hh); [|reflexivity].
  destruct (onToBlob h w hh _ _); reflexivity.
Qed.

Lemma rejection_is_a_failure (e : JsError) :
  snd (fst run) = Rejected e ->
  exists kind, Failure h timeInSeconds kind e.
Proof.
  subst run. unfold generateThumbnailFromVideo.
  destruct (contextAvailable h) eqn:Hctx; cbn [negb].
  2:{ intros [= <-]. eexists. now apply no_canvas_context. }
  unfold createObjectURL.
  destruct (onLoad h) as [w hh duration| |] eqn:Hload; cbn [fst snd].
  2:{ intros [= <-]. eexists. now apply error_on_load. }
  2:{ discriminate. }
  unfold onLoadedMetadata.
  destruct (onSeek h _) eqn:Hseek; cbn [fst snd]; try discriminate.
  2:{ intros [= <-]. eexists. eapply error_on_seek; eassumption. }
  unfold onSeeked.
  destruct (onDrawImage h w hh) eqn:Hdraw; cbn [fst snd].
  2:{ intros [= <-]. eexists. eapply drawImage_throws; eassumption. }
  destruct (onToBlob h w hh _ _) eqn:Hblob; cbn [fst snd].
  - discriminate.
  - intros [= <-]. eexists. eapply no_output_bytes; eassumption.
  - intros [= <-]. eexists. eapply toBlob_throws; eassumption.
Qed.

Lemma failure_is_rejected (kind : FailureKind) (e : JsError) :
  Failure h timeInSeconds kind e -> snd (fst run) = Rejected e.
Proof.
  subst run. intros HF. inversion HF; subst; run_extractor; reflexivity.
Qed.

End OneExtraction.



(** C8: when the browser decodes the video (metadata, seek, paint) and the
    encoder delivers, and the requested offset does not exceed the duration,
    the extraction resolves with the URL of an image of type [image/jpeg]
    encoded at quality 0.8 whose width and height are [videoWidth] and
    [videoHeight]: the canvas is given exactly that size and the frame is
    painted over the whole of it, at the requested offset. *)
Theorem thumbnail_is_full_size_jpeg
    (h : Host) (videoFile : File) (timeInSeconds : number) (store : UrlStore)
    (videoWidth videoHeight : N) (duration : number) :
  contextAvailable h = true ->
  onLoad h = LoadedMetadata videoWidth videoHeight duration ->
  num_le timeInSeconds duration = true ->
  onSeek h (Math_min timeInSeconds duration) = Seeked ->
  onDrawImage h videoWidth videoHeight = Drawn ->
  onToBlob h videoWidth videoHeight "image/jpeg" num_0_8 = BlobReady ->
  let run := generateThumbnailFromVideo h videoFile timeInSeconds store in
  exists u b,
    snd (fst run) = Resolved u /\
    resolveURL u (snd run) = Some (OfBlob b) /\
    blob_type b = "image/jpeg" /\
    blob_quality b = num_0_8 /\
    blob_width b = videoWidth /\ blob_height b = videoHeight /\
    blob_source b = videoFile /\
    SFeqb (blob_time b) timeInSeconds = true /\
    In (SetCanvasSize videoWidth videoHeight) (fst (fst run)) /\
    In (DrawImage 0 0 videoWidth videoHeight) (fst (fst run)) /\
    In (ToBlob "image/jpeg" num_0_8) (fst (fst run)).
Proof.
  intros Hctx Hload Hle Hseek Hdraw Hblob run. subst run.
  rewrite (extraction_succeeds h videoFile timeInSeconds store
             videoWidth videoHeight duration) by assumption.
  do 2 eexists. cbn [fst snd].
  split; [reflexivity|]. split.
  - apply (resolveURL_fresh (OfBlob _) (store ++ [OfFile videoFile])).
  - cbn [blob_type blob_quality blob_width blob_height blob_source blob_time].
    repeat split; try (apply Math_min_keeps; exact Hle); simpl; tauto.
Qed.

Lemma thumbnail_is_full_size_jpeg_witness :
  exists u b,
    snd (fst (generateThumbnailFromVideo (healthy num_10) clip num_1 []))
      = Resolved u /\
    resolveURL u (snd (generateThumbnailFromVideo (healthy num_10) clip num_1 []))
      = Some (OfBlob b) /\
    blob_type b = "image/jpeg" /\ blob_quality b = num_0_8 /\
    blob_width b = 640%N /\ blob_height b = 360%N.
Proof.
  destruct (thumbnail_is_full_size_jpeg (healthy num_10) clip num_1 [] 640 360
              num_10 eq_refl eq_refl eq_refl eq_refl eq_refl eq_refl)
    as (u & b & H1 & H2 & H3 & H4 & H5 & H6 & _).
  exists u, b. repeat split; assumption.
Defined.

(** C9, as the code has it: an extraction is rejected exactly in the cases
    of [Failure], that is the three kinds of the taxonomy (no canvas context;
    the [error] event at load time or during the seek; [null] from the
    encoder after a successful paint), each with its own message, and in
    addition an exception thrown by [drawImage] or [toBlob], which is passed
    on as it is.  The missing canvas context is found before the video is
    opened. *)
Theorem extraction_failure_cases
    (h : Host) (videoFile : File) (timeInSeconds : number) (store : UrlStore) :
  let run := generateThumbnailFromVideo h videoFile timeInSeconds store in
  (forall e, snd (fst run) = Rejected e <->
             exists kind, Failure h timeInSeconds kind e) /\
  (contextAvailable h = false ->
   snd (fst run) = Rejected err_no_context /\ opened (fst (fst run)) = false).
Proof.
  intros run. split.
  - intros e. split.
    + apply rejection_is_a_failure.
    + intros [kind HF]. eapply failure_is_rejected; eassumption.
  - intros Hctx. subst run.
    rewrite extraction_without_context by assumption. split; reflexivity.
Qed.

Lemma extraction_failure_cases_witness :
  Failure encoder_fails num_1 EncodeError err_no_blob /\
  snd (fst (generateThumbnailFromVideo encoder_fails clip num_1 []))
    = Rejected err_no_blob.
Proof.
  assert (HF : Failure encoder_fails num_1 EncodeError err_no_blob).
  { apply (no_output_bytes encoder_fails num_1 640 360 num_10); reflexivity. }
  split; [exact HF|].
  apply (proj1 (extraction_failure_cases encoder_fails clip num_1 [])).
  exists EncodeError. exact HF.
Defined.

(** C9 as stated does not hold: when [drawImage] throws, the extraction is
    rejected with the exception thrown, which is none of the three errors of
    the taxonomy. *)
Lemma rejection_outside_the_taxonomy :
  snd (fst (generateThumbnailFromVideo draw_fails clip num_1 []))
    = Rejected (MkError "NS_ERROR_NOT_AVAILABLE") /\
  MkError "NS_ERROR_NOT_AVAILABLE" <> err_no_context /\
  MkError "NS_ERROR_NOT_AVAILABLE" <> err_video_load /\
  MkError "NS_ERROR_NOT_AVAILABLE" <> err_no_blob /\
  ~ (forall h f t store e,
        snd (fst (generateThumbnailFromVideo h f t store)) = Rejected e ->
        Failure h t EnvironmentError e \/ Failure h t DecodeError e \/
        Failure h t EncodeError e).
Proof.
  split; [reflexivity|]. repeat (split; [discriminate|]).
  intros H.
  destruct (H draw_fails clip num_1 [] (MkError "NS_ERROR_NOT_AVAILABLE")
              eq_refl) as [HF|[HF|HF]]; inversion HF.
Qed.

(** ** Observations distribute over concatenation *)

Lemma extracted_app (tr1 tr2 : Trace) :
  extracted (tr1 ++ tr2) = extracted tr1 ++ extracted tr2.
Proof.
  induction tr1 as [|ev tr1 IH]; [reflexivity|].
  destruct ev; simpl; rewrite ?IH; reflexivity.
Qed.

Lemma progress_calls_app (tr1 tr2 : Trace) :
  progress_calls (tr1 ++ tr2) = progress_calls tr1 ++ progress_calls tr2.
Proof.
  induction tr1 as [|ev tr1 IH]; [reflexivity|].
  destruct ev; simpl; rewrite ?IH; reflexivity.
Qed.

Lemma logged_app (tr1 tr2 : Trace) :
  logged (tr1 ++ tr2) = logged tr1 ++ logged tr2.
Proof.
  induction tr1 as [|ev tr1 IH]; [reflexivity|].
  destruct ev; simpl; rewrite ?IH; reflexivity.
Qed.

Lemma extracted_ui (l : list UiEvent) : extracted (map Ui l) = [].
Proof. induction l; simpl; auto. Qed.

Lemma progress_calls_ui (l : list UiEvent) : progress_calls (map Ui l) = [].
Proof. induction l; simpl; auto. Qed.

Lemma sequential_ui (busy : bool) (l : list UiEvent) (tr : Trace) :
  sequential busy (map Ui l ++ tr) = sequential busy tr.
Proof. induction l; simpl; auto. Qed.

(** ** One extraction seen from the batch loop *)

Ltac oracle_cases h :=
  unfold generateThumbnailFromVideo, onLoadedMetadata, onSeeked, createObjectURL;
  destruct (contextAvailable h); cbn [negb];
  [ destruct (onLoad h) as [w hh duration| |];
    [ destruct (onSeek h _);
      [ destruct (onDrawImage h w hh);
        [ destruct (onToBlob h w hh _ _) | ] | | | ] | | ] | ].

Lemma verdict_any_store (h : Host) (f : File) (t : number) (store : UrlStore) :
  verdict_of (snd (fst (generateThumbnailFromVideo h f t store))) = verdict h f t.
Proof. unfold verdict. oracle_cases h; reflexivity. Qed.

Lemma extraction_extracted (h : Host) (f : File) (t : number) (store : UrlStore) :
  extracted (fst (fst (generateThumbnailFromVideo h f t store))) = [f].
Proof. oracle_cases h; reflexivity. Qed.

Lemma extraction_progress_calls (h : Host) (f : File) (t : number) (store : UrlStore) :
  progress_calls (fst (fst (generateThumbnailFromVideo h f t store))) = [].
Proof. oracle_cases h; reflexivity. Qed.

Lemma extraction_logged (h : Host) (f : File) (t : number) (store : UrlStore) :
  logged (fst (fst (generateThumbnailFromVideo h f t store))) = [].
Proof. oracle_cases h; reflexivity. Qed.

(** The trace of an extraction opens with the call and, when the promise
    settles, closes with the settlement; nothing else of the kind occurs. *)
Lemma extraction_sequential (h : Host) (f : File) (t : number)
    (store : UrlStore) (rest : Trace) :
  let run := generateThumbnailFromVideo h f t store in
  sequential false (fst (fst run) ++ rest) =
  match snd (fst run) with
  | Pending => sequential true rest
  | _ => sequential false rest
  end.
Proof. oracle_cases h; reflexivity. Qed.

Lemma callProgress_sequential (cb : option ProgressCallback) (f : File)
    (completed total : nat) (rest : Trace) :
  sequential false (callProgress cb f completed total ++ rest)
  = sequential false rest.
Proof.
  unfold callProgress. destruct cb as [cb|]; [|reflexivity].
  destruct (cb completed total) as [tr [e|]]; simpl;
    rewrite <- app_assoc, sequential_ui; reflexivity.
Qed.

Lemma callProgress_extracted (cb : option ProgressCallback) (f : File)
    (completed total : nat) :
  extracted (callProgress cb f completed total) = [].
Proof.
  unfold callProgress. destruct cb as [cb|]; [|reflexivity].
  destruct (cb completed total) as [tr [e|]]; simpl;
    rewrite extracted_app, extracted_ui; reflexivity.
Qed.

Lemma callProgress_progress_calls (cb : option ProgressCallback) (f : File)
    (completed total : nat) :
  progress_calls (callProgress cb f completed total)
  = match cb with Some _ => [(completed, total)] | None => [] end.
Proof.
  unfold callProgress. destruct cb as [cb|]; [|reflexivity].
  destruct (cb completed total) as [tr [e|]]; simpl;
    rewrite progress_calls_app, progress_calls_ui; reflexivity.
Qed.

(** ** The batch loop *)

Section BatchLoop.

Variable browser : Browser.
Variable total : nat.
Variable timeInSeconds : number.
Variable onProgress : option ProgressCallback.

Let loop := batch_loop browser total timeInSeconds onProgress.
Let vs := verdicts browser timeInSeconds.

Ltac step_loop i f store :=
  cbn [batch_loop verdicts filter existsb map];
  pose proof (verdict_any_store (browser i f) f timeInSeconds store) as Hv;
  pose proof (extraction_extracted (browser i f) f timeInSeconds store) as Hx;
  pose proof (extraction_progress_calls (browser i f) f timeInSeconds store) as Hp;
  pose proof (extraction_logged (browser i f) f timeInSeconds store) as Hl;
  pose proof (extraction_sequential (browser i f) f timeInSeconds store) as Hs;
  cbv zeta in Hs;
  destruct (generateThumbnailFromVideo (browser i f) f timeInSeconds store)
    as [[tr out] store1];
  cbn [fst snd] in Hv, Hx, Hp, Hl, Hs.

(** Whatever the browser does, the calls of the extractor do not overlap,
    and they go through the inputs in order, without repetition. *)
Lemma loop_in_order (rest : list File) :
  forall i results store,
    let tr := fst (fst (loop i rest results store)) in
    sequential false tr = true /\
    exists untouched, rest = extracted tr ++ untouched.
Proof.
  subst loop. induction rest as [|f rest IH]; intros i results store.
  - split; [reflexivity | exists []; reflexivity].
  - step_loop i f store. destruct out as [u|e|].
    + specialize (IH (i + 1) (results ++ [mkResult f u
                       (createThumbnailFileName (name f))]) store1).
      destruct (batch_loop _ _ _ _ _ rest _ _) as [[tr' r] store2].
      cbn [fst snd] in *. destruct IH as [IHs [untouched IHx]]. split.
      * rewrite Hs, callProgress_sequential. exact IHs.
      * exists untouched.
        rewrite !extracted_app, Hx, callProgress_extracted. simpl.
        now rewrite <- IHx.
    + specialize (IH (i + 1) results store1).
      destruct (batch_loop _ _ _ _ _ rest _ _) as [[tr' r] store2].
      cbn [fst snd] in *. destruct IH as [IHs [untouched IHx]]. split.
      * rewrite Hs. exact IHs.
      * exists untouched. rewrite extracted_app, Hx. simpl.
        now rewrite <- IHx.
    + cbn [fst snd]. split.
      * rewrite <- (app_nil_r tr), Hs. reflexivity.
      * exists rest. now rewrite Hx.
Qed.

(** The loop runs to its end only if no extraction hangs. *)
Lemma loop_end_no_hang (rest : list File) :
  forall i results store final,
    snd (fst (loop i rest results store)) = Some final ->
    existsb hangs (vs i rest) = false.
Proof.
  subst loop vs. induction rest as [|f rest IH]; intros i results store final.
  - reflexivity.
  - step_loop i f store. unfold hangs at 1. cbn [snd]. rewrite <- Hv.
    destruct out as [u|e|]; cbn [verdict_of orb].
    + specialize (IH (i + 1) (results ++ [mkResult f u
                       (createThumbnailFileName (name f))]) store1).
      destruct (batch_loop _ _ _ _ _ rest _ _) as [[tr' r] store2].
      cbn [fst snd] in *. intros ->. eapply IH; reflexivity.
    + specialize (IH (i + 1) results store1).
      destruct (batch_loop _ _ _ _ _ rest _ _) as [[tr' r] store2].
      cbn [fst snd] in *. intros ->. eapply IH; reflexivity.
    + discriminate.
Qed.

(** When no extraction hangs the loop runs to its end: every input has
    been handed to the extractor, the results are the successful inputs in
    order, each failure has been logged, and the progress callback has been
    called once per success. *)
Lemma loop_runs_to_end (rest : list File) :
  forall i results store,
    existsb hangs (vs i rest) = false ->
    let run := loop i rest results store in
    exists added,
      snd (fst run) = Some (results ++ added) /\
      map file added = map (fun x => snd (fst x)) (filter succeeded (vs i rest)) /\
      map fileName added
        = map (fun x => createThumbnailFileName (name (snd (fst x))))
              (filter succeeded (vs i rest)) /\
      extracted (fst (fst run)) = rest /\
      progress_calls (fst (fst run)) = reports onProgress total (vs i rest) /\
      (forall j g e, In (j, g, Fails e) (vs i rest) ->
                     In (failed_message g, e) (logged (fst (fst run)))).
Proof.
  subst loop vs. unfold reports.
  induction rest as [|f rest IH]; intros i results store.
  - intros _. exists []. cbn. rewrite app_nil_r.
    repeat split; try reflexivity; try (destruct onProgress; reflexivity).
    contradiction.
  - step_loop i f store. unfold hangs at 1, succeeded at 1 2 3. cbn [snd].
    rewrite <- Hv. destruct out as [u|e|]; cbn [verdict_of orb].
    + intros Hno.
      specialize (IH (i + 1) (results ++ [mkResult f u
                       (createThumbnailFileName (name f))]) store1 Hno).
      destruct (batch_loop _ _ _ _ _ rest _ _) as [[tr' r] store2].
      cbn [fst snd] in *.
      destruct IH as (added & -> & Hfiles & Hnames & Hext & Hprog & Hlog).
      exists (mkResult f u (createThumbnailFileName (name f)) :: added).
      rewrite <- app_assoc. cbn [app map file fileName fst snd].
      split; [reflexivity|]. split; [now rewrite Hfiles|].
      split; [now rewrite Hnames|]. split.
      { rewrite !extracted_app, Hx, callProgress_extracted, Hext. reflexivity. }
      split.
      { rewrite !progress_calls_app, Hp, callProgress_progress_calls, Hprog.
        destruct onProgress; reflexivity. }
      intros j g e' [[=]|Hin]. rewrite !logged_app.
      apply in_or_app; right. apply in_or_app; right. eauto.
    + intros Hno. specialize (IH (i + 1) results store1 Hno).
      destruct (batch_loop _ _ _ _ _ rest _ _) as [[tr' r] store2].
      cbn [fst snd] in *.
      destruct IH as (added & -> & Hfiles & Hnames & Hext & Hprog & Hlog).
      exists added. split; [reflexivity|]. split; [exact Hfiles|].
      split; [exact Hnames|]. split.
      { rewrite extracted_app, Hx. simpl. now rewrite Hext. }
      split.
      { rewrite progress_calls_app, Hp. simpl. exact Hprog. }
      intros j g e' Hin. rewrite logged_app, Hl. simpl.
      destruct Hin as [[= <- <- <-]|Hin]; [left; reflexivity|right; eauto].
    + discriminate.
Qed.

End BatchLoop.

(** ** Counting the items of a batch *)

Lemma verdicts_length (browser : Browser) (t : number) (files : list File) :
  forall i, List.length (verdicts browser t i files) = List.length files.
Proof. induction files as [|f files IH]; intros i; simpl; auto. Qed.

Lemma succeeded_count (items : list (nat * File * Verdict)) :
  existsb hangs items = false ->
  List.length (filter succeeded items)
  = List.length items - List.length (filter failed items).
Proof.
  induction items as [|[[i f] v] items IH]; [reflexivity|].
  assert (Hle : List.length (filter failed items) <= List.length items)
    by apply filter_length_le.
  unfold hangs, succeeded, failed in *. cbn [existsb filter snd].
  destruct v; cbn [orb List.length]; intros Hno; try discriminate;
    specialize (IH Hno); lia.
Qed.

(** ** [batchGenerateThumbnails] *)

(** C1, at the input named by the claim: three files of which the second
    does not decode.  The progress callback is called after the first and
    the third file only, with (1,3) and (3,3); the call (2,3) that the claim
    expects for the skipped file is never made. *)
Theorem progress_skips_failed_item :
  let run := batchGenerateThumbnails sample_browser [clip; broken; archive]
                                     num_1 (Some silent_callback) [] in
  map (fun x => snd x) (verdicts sample_browser num_1 0 [clip; broken; archive])
    = [Succeeds; Fails err_video_load; Succeeds] /\
  progress_calls (fst (fst run)) = [(1, 3); (3, 3)] /\
  progress_calls (fst (fst run)) <> [(1, 3); (2, 3); (3, 3)] /\
  option_map (map file) (snd (fst run)) = Some [clip; archive].
Proof. repeat split; try reflexivity. discriminate. Qed.

(** X16: when every extraction of a batch settles, the progress callback is
    called once per successful item and never for a failed one, with the
    index of the item plus one and the length of the input: [N - K] calls
    for [N] inputs of which [K] fail. *)
Lemma progress_calls_of_batch (browser : Browser) (videoFiles : list File)
    (t : number) (cb : ProgressCallback) (store : UrlStore) :
  let items := verdicts browser t 0 videoFiles in
  existsb hangs items = false ->
  let tr := fst (fst (batchGenerateThumbnails browser videoFiles t (Some cb) store)) in
  progress_calls tr = reports (Some cb) (List.length videoFiles) items /\
  List.length (progress_calls tr)
  = List.length videoFiles - List.length (filter failed items).
Proof.
  intros items Hno tr. subst tr. unfold batchGenerateThumbnails.
  destruct (loop_runs_to_end browser (List.length videoFiles) t (Some cb)
              videoFiles 0 [] store Hno) as (added & _ & _ & _ & _ & Hp & _).
  rewrite Hp. split; [reflexivity|].
  unfold reports. rewrite length_map.
  rewrite succeeded_count by exact Hno.
  subst items. now rewrite verdicts_length.
Qed.

(** An extraction that never settles leaves the batch pending, and the
    inputs after it untouched. *)
Example batch_waits_for_pending_extraction :
  let run := batchGenerateThumbnails sample_browser [clip; endless; archive]
                                     num_1 None [] in
  snd (fst run) = None /\ extracted (fst (fst run)) = [clip; endless].
Proof. split; reflexivity. Qed.

(** C3: when each of the [N] extractions of a batch settles and [K] of them
    fail, the batch resolves, with a result sequence of length [N - K] that
    holds the successful inputs in order (the failed ones are absent); each
    failure was logged with [console.error] and the loop went on to the next
    input, so every input was handed to the extractor. *)
Theorem batch_survives_failures
    (browser : Browser) (videoFiles : list File) (timeInSeconds : number)
    (onProgress : option ProgressCallback) (store : UrlStore) :
  let items := verdicts browser timeInSeconds 0 videoFiles in
  existsb hangs items = false ->
  let run := batchGenerateThumbnails browser videoFiles timeInSeconds
                                     onProgress store in
  exists results,
    snd (fst run) = Some results /\
    List.length results
    = List.length videoFiles - List.length (filter failed items) /\
    map file results = map (fun x => snd (fst x)) (filter succeeded items) /\
    extracted (fst (fst run)) = videoFiles /\
    (forall j g e, In (j, g, Fails e) items ->
                   In (failed_message g, e) (logged (fst (fst run)))).
Proof.
  intros items Hno run. subst run. unfold batchGenerateThumbnails.
  destruct (loop_runs_to_end browser (List.length videoFiles) timeInSeconds
              onProgress videoFiles 0 [] store Hno)
    as (added & Hres & Hfiles & _ & Hext & _ & Hlog).
  exists added. cbn [app] in Hres. repeat split; try assumption.
  rewrite <- (length_map file), Hfiles, length_map.
  rewrite succeeded_count by exact Hno.
  subst items. now rewrite verdicts_length.
Qed.

Lemma batch_survives_failures_witness :
  exists results,
    snd (fst (batchGenerateThumbnails sample_browser [clip; broken; archive]
                                      num_1 None [])) = Some results /\
    List.length results = 3 - 1.
Proof.
  destruct (batch_survives_failures sample_browser [clip; broken; archive]
              num_1 None [] eq_refl) as (results & H1 & H2 & _).
  exists results. split; [exact H1 | exact H2].
Defined.

(** C4: the calls of the extractor never overlap (a call is made only once
    the promise of the previous one has settled) and go through the inputs
    in order, each at most once; if the batch resolves, every input has been
    handed to the extractor exactly once and the results are the successful
    inputs in input order; and it does resolve when every extraction
    settles. *)
Theorem batch_is_sequential
    (browser : Browser) (videoFiles : list File) (timeInSeconds : number)
    (onProgress : option ProgressCallback) (store : UrlStore) :
  let items := verdicts browser timeInSeconds 0 videoFiles in
  let run := batchGenerateThumbnails browser videoFiles timeInSeconds
                                     onProgress store in
  sequential false (fst (fst run)) = true /\
  (exists untouched, videoFiles = extracted (fst (fst run)) ++ untouched) /\
  (forall results,
      snd (fst run) = Some results ->
      extracted (fst (fst run)) = videoFiles /\
      map file results = map (fun x => snd (fst x)) (filter succeeded items)) /\
  (existsb hangs items = false -> exists results, snd (fst run) = Some results).
Proof.
  intros items run. subst run. unfold batchGenerateThumbnails.
  pose proof (loop_in_order browser (List.length videoFiles) timeInSeconds
                onProgress videoFiles 0 [] store) as [Hseq Hprefix].
  split; [exact Hseq|]. split; [exact Hprefix|]. split.
  - intros results Hres.
    pose proof (loop_end_no_hang browser (List.length videoFiles) timeInSeconds
                  onProgress videoFiles 0 [] store results Hres) as Hno.
    destruct (loop_runs_to_end browser (List.length videoFiles) timeInSeconds
                onProgress videoFiles 0 [] store Hno)
      as (added & Hres' & Hfiles & _ & Hext & _).
    rewrite Hres in Hres'. injection Hres' as ->. split; assumption.
  - intros Hno.
    destruct (loop_runs_to_end browser (List.length videoFiles) timeInSeconds
                onProgress videoFiles 0 [] store Hno) as (added & Hres & _).
    eauto.
Qed.

Lemma batch_is_sequential_witness :
  snd (fst (batchGenerateThumbnails sample_browser [clip; broken; archive]
              num_1 (Some silent_callback) []))
    = Some [mkResult clip (BlobURL 1) "clip-thumb.jpg";
            mkResult archive (BlobURL 4) "archive.tar-thumb.jpg"] /\
  extracted (fst (fst (batchGenerateThumbnails sample_browser
                         [clip; broken; archive] num_1
                         (Some silent_callback) [])))
    = [clip; broken; archive].
Proof.
  split; [reflexivity|].
  apply (proj1 (proj2 (proj2 (batch_is_sequential sample_browser
                                [clip; broken; archive] num_1
                                (Some silent_callback) []))) _ eq_refl).
Defined.

(** ** Validation happens in the uploader *)

Lemma handleFiles_extracted (browser : Browser)
    (notify : option (list VideoThumbnailData -> option JsError))
    (files : list File) (store : UrlStore) :
  let videoFiles := filter isValidVideoFile files in
  extracted (fst (fst (handleFiles browser notify files store)))
  = extracted (fst (fst (batchGenerateThumbnails browser videoFiles num_1
                           (Some uploaderProgress) store))) /\
  (snd (fst (handleFiles browser notify files store)) = true ->
   videoFiles = [] \/
   exists results,
     snd (fst (batchGenerateThumbnails browser videoFiles num_1
                 (Some uploaderProgress) store)) = Some results).
Proof.
  intros videoFiles. unfold handleFiles. fold videoFiles.
  destruct videoFiles as [|f videoFiles'] eqn:E.
  - split; [reflexivity | now left].
  - cbn [List.length Nat.eqb]. rewrite <- E.
    destruct (batchGenerateThumbnails browser videoFiles num_1
                (Some uploaderProgress) store) as [[tr [results|]] store1].
    + destruct (thumbnailData_from 0 results store1) as [data store2].
      cbn [fst snd]. split; [|right; eauto].
      destruct notify as [cb|]; [destruct (cb data)|];
        rewrite !extracted_app; cbn [extracted app]; now rewrite app_nil_r.
    + cbn [fst snd app extracted]. split; [reflexivity | discriminate].
Qed.

(** The batch always hands its first input to the extractor. *)
Lemma batch_extracts_first (browser : Browser) (videoFiles : list File)
    (t : number) (cb : option ProgressCallback) (store : UrlStore) :
  hd_error (extracted (fst (fst (batchGenerateThumbnails browser videoFiles
                                   t cb store))))
  = hd_error videoFiles.
Proof.
  unfold batchGenerateThumbnails. destruct videoFiles as [|f rest];
    [reflexivity|].
  cbn [batch_loop].
  pose proof (extraction_extracted (browser 0 f) f t store) as Hx.
  destruct (generateThumbnailFromVideo (browser 0 f) f t store)
    as [[tr out] store1].
  cbn [fst snd] in Hx. destruct out as [u|e|].
  - destruct (batch_loop _ _ _ _ _ rest _ _) as [[tr' r] store2].
    cbn [fst]. now rewrite extracted_app, Hx.
  - destruct (batch_loop _ _ _ _ _ rest _ _) as [[tr' r] store2].
    cbn [fst]. now rewrite extracted_app, Hx.
  - cbn [fst]. now rewrite Hx.
Qed.

(** C2, as the code has it: validation is done by the caller.
    [handleFiles] keeps the files accepted by [isValidVideoFile] and hands
    only those to [batchGenerateThumbnails], so through [handleFiles] the
    extractor is never invoked on a file whose declared media type is outside
    the whitelist; when [handleFiles] runs to its end the extractor has been
    invoked on exactly the accepted files, in order.
    [batchGenerateThumbnails] itself does not look at the media types:
    whatever its inputs are, it invokes the extractor on them in input order
    without skipping any, always on the first one, and on every one of them
    when every extraction settles. *)
Theorem uploader_extracts_valid_files_only
    (browser : Browser)
    (notify : option (list VideoThumbnailData -> option JsError))
    (files : list File) (store : UrlStore) :
  let run := handleFiles browser notify files store in
  Forall (fun f => isValidVideoFile f = true /\ In f files)
         (extracted (fst (fst run))) /\
  (snd (fst run) = true ->
   extracted (fst (fst run)) = filter isValidVideoFile files) /\
  (forall (videoFiles : list File) (timeInSeconds : number)
          (onProgress : option ProgressCallback),
      let batch := batchGenerateThumbnails browser videoFiles timeInSeconds
                                           onProgress store in
      (exists untouched,
          videoFiles = extracted (fst (fst batch)) ++ untouched) /\
      hd_error (extracted (fst (fst batch))) = hd_error videoFiles /\
      (existsb hangs (verdicts browser timeInSeconds 0 videoFiles) = false ->
       extracted (fst (fst batch)) = videoFiles)).
Proof.
  intros run. subst run.
  assert (Hbatch :
            forall (videoFiles : list File) (timeInSeconds : number)
                   (onProgress : option ProgressCallback),
              let batch := batchGenerateThumbnails browser videoFiles
                             timeInSeconds onProgress store in
              (exists untouched,
                  videoFiles = extracted (fst (fst batch)) ++ untouched) /\
              hd_error (extracted (fst (fst batch))) = hd_error videoFiles /\
              (existsb hangs (verdicts browser timeInSeconds 0 videoFiles)
               = false ->
               extracted (fst (fst batch)) = videoFiles)).
  { intros videoFiles timeInSeconds onProgress batch. subst batch.
    split; [|split; [apply batch_extracts_first|]];
      unfold batchGenerateThumbnails.
    - apply (loop_in_order browser (List.length videoFiles) timeInSeconds
               onProgress videoFiles 0 [] store).
    - intros Hno.
      destruct (loop_runs_to_end browser (List.length videoFiles) timeInSeconds
                  onProgress videoFiles 0 [] store Hno)
        as (_ & _ & _ & _ & Hext & _).
      exact Hext. }
  rewrite <- and_assoc. split; [|exact Hbatch]. clear Hbatch.
  destruct (handleFiles_extracted browser notify files store) as [Hx Hend].
  cbv zeta in Hx, Hend. rewrite Hx.
  unfold batchGenerateThumbnails in *.
  set (videoFiles := filter isValidVideoFile files) in *.
  destruct (loop_in_order browser (List.length videoFiles) num_1
              (Some uploaderProgress) videoFiles 0 [] store)
    as [_ [untouched Hprefix]].
  split.
  - apply Forall_forall. intros f Hin.
    assert (Hf : In f videoFiles).
    { rewrite Hprefix. apply in_or_app. now left. }
    apply filter_In in Hf. tauto.
  - intros Hdone. destruct (Hend Hdone) as [Hnil|[results Hres]].
    + rewrite Hnil. reflexivity.
    + pose proof (loop_end_no_hang browser (List.length videoFiles) num_1
                    (Some uploaderProgress) videoFiles 0 [] store results Hres)
        as Hno.
      destruct (loop_runs_to_end browser (List.length videoFiles) num_1
                  (Some uploaderProgress) videoFiles 0 [] store Hno)
        as (_ & _ & _ & _ & Hext & _).
      exact Hext.
Qed.

Lemma uploader_extracts_valid_files_only_witness :
  snd (fst (handleFiles sample_browser None [photo; clip; broken] [])) = true /\
  extracted (fst (fst (handleFiles sample_browser None [photo; clip; broken] [])))
    = [clip; broken] /\
  existsb hangs (verdicts sample_browser num_1 0 [photo; clip; broken]) = false /\
  extracted (fst (fst (batchGenerateThumbnails sample_browser
                         [photo; clip; broken] num_1 None [])))
    = [photo; clip; broken].
Proof.
  split; [reflexivity|]. split.
  - apply (proj1 (proj2 (uploader_extracts_valid_files_only sample_browser None
                           [photo; clip; broken] [])) eq_refl).
  - split; [reflexivity|].
    apply (proj2 (proj2 (uploader_extracts_valid_files_only sample_browser None
                           [photo; clip; broken] []))
                 [photo; clip; broken] num_1 None).
    reflexivity.
Defined.

(** C2 as stated does not hold of [batchGenerateThumbnails] itself, which
    does not call [isValidVideoFile]: given a file of declared type
    [image/jpeg], which the predicate rejects, it invokes the extractor
    on it. *)
Lemma batch_extracts_rejected_input :
  isValidVideoFile photo = false /\
  extracted (fst (fst (batchGenerateThumbnails sample_browser [photo] num_1
                         None []))) = [photo] /\
  ~ (forall browser videoFiles t cb store f,
        In f (extracted (fst (fst (batchGenerateThumbnails browser videoFiles
                                     t cb store)))) ->
        isValidVideoFile f = true).
Proof.
  split; [reflexivity|]. split; [reflexivity|].
  intros H.
  specialize (H sample_browser [photo] num_1 None [] photo (or_introl eq_refl)).
  discriminate H.
Qed.

(** * Further properties of the utilities *)

(** ** File names with directories *)

Lemma append_assoc (s1 s2 s3 : string) :
  ((s1 ++ s2) ++ s3 = s1 ++ (s2 ++ s3))%string.
Proof. induction s1 as [|a s1 IH]; simpl; [reflexivity | now rewrite IH]. Qed.

(** A run that still contains a slash does not reach the end of the input. *)
Lemma ext_run_through_slash (s rest : string) :
  ext_run (s ++ "/" ++ rest) = false.
Proof.
  induction s as [|a s IH].
  - simpl. destruct rest; reflexivity.
  - change ((String a s ++ "/" ++ rest)%string) with (String a (s ++ "/" ++ rest)).
    rewrite ext_run_cons, IH by (destruct s; discriminate).
    apply andb_false_r.
Qed.

Lemma replace_final_extension_directory (dir base : string) :
  replace_final_extension (dir ++ "/" ++ base)
  = (dir ++ "/" ++ replace_final_extension base)%string.
Proof.
  induction dir as [|a dir IH].
  - change (("" ++ "/" ++ base)%string) with (String "/" base).
    rewrite replace_final_extension_eq. reflexivity.
  - change ((String a dir ++ "/" ++ base)%string)
      with (String a (dir ++ "/" ++ base)).
    rewrite replace_final_extension_eq. unfold match_at.
    rewrite ext_run_through_slash, andb_false_r, IH. reflexivity.
Qed.

Lemma replace_final_extension_no_dot (s : string) :
  (forall c, In c (list_ascii_of_string s) -> c <> "."%char) ->
  replace_final_extension s = s.
Proof.
  induction s as [|a s IH]; intros Hno; [reflexivity|].
  rewrite replace_final_extension_eq. unfold match_at.
  destruct (Ascii.eqb_spec a ".") as [->|Hne].
  - exfalso. apply (Hno "."%char); simpl; auto.
  - cbn [andb]. f_equal. apply IH. intros c Hc. apply Hno. simpl. auto.
Qed.

(** X1: only the last segment of a path is renamed.  Whatever precedes the
    last slash is kept as it is, dots included, and a last segment without a
    dot is kept whole. *)
Theorem createThumbnailFileName_keeps_directories (dir base : string) :
  createThumbnailFileName (dir ++ "/" ++ base)
  = (dir ++ "/" ++ createThumbnailFileName base)%string /\
  ((forall c, In c (list_ascii_of_string base) -> c <> "."%char) ->
   createThumbnailFileName (dir ++ "/" ++ base)
   = (dir ++ "/" ++ base ++ "-thumb.jpg")%string).
Proof.
  assert (H : createThumbnailFileName (dir ++ "/" ++ base)
              = (dir ++ "/" ++ createThumbnailFileName base)%string).
  { unfold createThumbnailFileName.
    rewrite replace_final_extension_directory, !append_assoc. reflexivity. }
  split; [exact H|].
  intros Hno. rewrite H. unfold createThumbnailFileName.
  now rewrite replace_final_extension_no_dot.
Qed.

Lemma createThumbnailFileName_keeps_directories_witness :
  createThumbnailFileName "reels.2024/intro" = "reels.2024/intro-thumb.jpg".
Proof.
  apply (proj2 (createThumbnailFileName_keeps_directories "reels.2024" "intro")).
  intros c Hc. simpl in Hc.
  repeat (destruct Hc as [<-|Hc]; [discriminate|]). contradiction.
Defined.

(** ** The seek position *)

Lemma SFcompare_total (x y : number) :
  is_nan x = false -> is_nan y = false -> SFcompare x y <> None.
Proof.
  destruct x as [[|]|[|]| |s1 m1 e1], y as [[|]|[|]| |s2 m2 e2];
    simpl; intros; discriminate.
Qed.

Lemma num_le_refl (x : number) : is_nan x = false -> num_le x x = true.
Proof.
  intros Hx. pose proof (SFeqb_refl x Hx) as H.
  unfold num_le, SFleb. unfold SFeqb in H.
  destruct (SFcompare x x) as [[| |]|]; try discriminate; reflexivity.
Qed.

Lemma not_lt_le (x y : number) :
  is_nan x = false -> is_nan y = false ->
  num_lt y x = false -> num_le x y = true.
Proof.
  intros Hx Hy. unfold num_lt, num_le, SFltb, SFleb.
  pose proof (SFcompare_total x y Hx Hy) as Htot.
  rewrite (SFcompare_swap x y).
  destruct (SFcompare x y) as [[| |]|]; simpl; congruence.
Qed.

Lemma lt_le (x y : number) : num_lt x y = true -> num_le x y = true.
Proof.
  unfold num_lt, num_le, SFltb, SFleb.
  destruct (SFcompare x y) as [[| |]|]; congruence.
Qed.

Lemma min_step_infinity (x : number) :
  is_nan x = false -> min_step pos_infinity x = x.
Proof. destruct x as [[|]|[|]| |s m e]; try reflexivity; discriminate. Qed.

Lemma Math_min_bounds (t d : number) :
  is_nan t = false -> is_nan d = false ->
  num_le (Math_min t d) t = true /\ num_le (Math_min t d) d = true.
Proof.
  intros Ht Hd. unfold Math_min. rewrite Ht, Hd. cbn [orb fold_left].
  rewrite min_step_infinity by exact Ht.
  assert (Hgen : (if num_lt d t then d else t) = d /\ num_lt d t = true \/
                 (if num_lt d t then d else t) = t /\ num_lt d t = false)
    by (destruct (num_lt d t); auto).
  assert (Hmain : num_le (if num_lt d t then d else t) t = true /\
                  num_le (if num_lt d t then d else t) d = true).
  { destruct Hgen as [[-> Hlt]|[-> Hlt]].
    - split; [now apply lt_le | now apply num_le_refl].
    - split; [now apply num_le_refl | now apply not_lt_le]. }
  unfold min_step.
  destruct d as [[|]|[|]| |s2 m2 e2]; try exact Hmain.
  destruct t as [[|]|[|]| |s1 m1 e1]; exact Hmain.
Qed.

Lemma Math_min_nan (t d : number) :
  is_nan (Math_min t d) = is_nan t || is_nan d.
Proof.
  destruct t as [[|]|[|]| |s1 m1 e1], d as [[|]|[|]| |s2 m2 e2];
    try reflexivity; unfold Math_min; cbn [is_nan orb fold_left];
    unfold min_step, num_lt, SFltb;
    try (destruct s1; reflexivity); try (destruct s2; reflexivity);
    destruct (SFcompare _ _) as [[| |]|]; reflexivity.
Qed.

(** X2: the extractor never seeks past the end of the video, nor past the
    requested offset: the position it assigns to [currentTime] is at most the
    duration and at most [timeInSeconds].  There is no lower clamp, and the
    position is NaN exactly when the offset or the duration is. *)
Theorem seek_target_bounded
    (h : Host) (videoFile : File) (timeInSeconds : number) (store : UrlStore)
    (w hh : N) (duration : number) :
  contextAvailable h = true ->
  onLoad h = LoadedMetadata w hh duration ->
  let tr := fst (fst (generateThumbnailFromVideo h videoFile timeInSeconds store)) in
  exists x,
    seek_targets tr = [x] /\
    is_nan x = is_nan timeInSeconds || is_nan duration /\
    (is_nan timeInSeconds = false -> is_nan duration = false ->
     num_le x duration = true /\ num_le x timeInSeconds = true).
Proof.
  intros Hctx Hload tr. subst tr.
  exists (Math_min timeInSeconds duration). split.
  - now apply extraction_seek_target with (w := w) (hh := hh).
  - split; [apply Math_min_nan|].
    intros Ht Hd. destruct (Math_min_bounds _ _ Ht Hd). auto.
Qed.

Lemma seek_target_bounded_witness :
  exists x,
    seek_targets (fst (fst (generateThumbnailFromVideo (healthy num_10) clip
                              num_30 []))) = [x] /\
    num_le x num_10 = true.
Proof.
  destruct (seek_target_bounded (healthy num_10) clip num_30 [] 640 360 num_10
              eq_refl eq_refl) as (x & Hx & _ & Hb).
  exists x. split; [exact Hx|]. apply (Hb eq_refl eq_refl).
Defined.

(** ** Object URLs of one extraction *)

Lemma resolveURL_extend (u : URL) (store added : UrlStore) (target : UrlTarget) :
  resolveURL u store = Some target ->
  resolveURL u (store ++ added) = Some target.
Proof.
  destruct u as [id]. unfold resolveURL. intros H.
  rewrite nth_error_app1; [exact H|].
  apply nth_error_Some. congruence.
Qed.

Lemma resolveURL_bound (u : URL) (store : UrlStore) :
  resolveURL u store <> None <-> url_id u < List.length store.
Proof. destruct u as [id]. apply nth_error_Some. Qed.

(** What an extraction adds to the URL store: the URL of the source file as
    soon as the video is opened, and the URL of the image when it resolves,
    which is the last one minted. *)
Lemma extraction_store (h : Host) (f : File) (t : number) (store : UrlStore) :
  let run := generateThumbnailFromVideo h f t store in
  match snd (fst run) with
  | Resolved u =>
      exists b,
        snd run = store ++ [OfFile f; OfBlob b] /\
        u = BlobURL (S (List.length store)) /\
        blob_source b = f /\ blob_type b = "image/jpeg" /\
        blob_quality b = num_0_8
  | _ => snd run = store \/ snd run = store ++ [OfFile f]
  end.
Proof.
  oracle_cases h; cbn [fst snd]; auto.
  eexists. rewrite <- app_assoc, length_app, Nat.add_1_r.
  repeat split; reflexivity.
Qed.

Lemma opened_urls_app (tr1 tr2 : Trace) :
  opened_urls (tr1 ++ tr2) = opened_urls tr1 ++ opened_urls tr2.
Proof.
  induction tr1 as [|ev tr1 IH]; [reflexivity|].
  destruct ev; simpl; rewrite ?IH; reflexivity.
Qed.

Lemma extraction_opened (h : Host) (f : File) (t : number) (store : UrlStore) :
  let run := generateThumbnailFromVideo h f t store in
  opened_urls (fst (fst run)) = [] /\ snd run = store \/
  opened_urls (fst (fst run)) = [BlobURL (List.length store)] /\
  exists rest, snd run = store ++ OfFile f :: rest.
Proof.
  oracle_cases h; cbn [fst snd app opened_urls]; auto; right;
    (split; [reflexivity|]);
    try (exists []; reflexivity).
  eexists. rewrite <- app_assoc. reflexivity.
Qed.

(** ** Object URLs of a batch *)

Lemma extraction_summary (h : Host) (f : File) (t : number) (store : UrlStore) :
  let run := generateThumbnailFromVideo h f t store in
  exists added,
    snd run = store ++ added /\
    Forall (fun u => url_id u = List.length store /\
                     resolveURL u (snd run) = Some (OfFile f))
           (opened_urls (fst (fst run))) /\
    List.length (opened_urls (fst (fst run))) <= 1 /\
    match snd (fst run) with
    | Resolved u =>
        url_id u = S (List.length store) /\
        exists b, resolveURL u (snd run) = Some (OfBlob b) /\
                  blob_source b = f /\ blob_type b = "image/jpeg" /\
                  blob_quality b = num_0_8
    | _ => True
    end.
Proof.
  assert (Hfile : forall rest,
             resolveURL (BlobURL (List.length store)) (store ++ OfFile f :: rest)
             = Some (OfFile f)).
  { intros rest. unfold resolveURL.
    rewrite nth_error_app2, Nat.sub_diag by apply Nat.le_refl. reflexivity. }
  oracle_cases h; cbn [fst snd app opened_urls List.length].
  all: try (exists [OfFile f]; repeat split; auto; repeat constructor; auto;
            apply Hfile).
  - eexists. rewrite <- app_assoc. split; [reflexivity|].
    split; [repeat constructor; apply Hfile|]. split; [auto|].
    split; [rewrite length_app, Nat.add_1_r; reflexivity|].
    eexists. split.
    + unfold resolveURL. rewrite length_app, Nat.add_1_r.
      cbn [app].
      rewrite (nth_error_app2 store) by lia.
      replace (S (List.length store) - List.length store) with 1 by lia.
      reflexivity.
    + repeat split; reflexivity.
  - exists []. rewrite app_nil_r. repeat split; auto.
Qed.

Lemma NoDup_short {A : Type} (l : list A) : List.length l <= 1 -> NoDup l.
Proof.
  destruct l as [|a [|b l]]; simpl; intros H.
  - constructor.
  - constructor; [intros []|constructor].
  - lia.
Qed.

Lemma callProgress_opened (cb : option ProgressCallback) (f : File)
    (completed total : nat) :
  opened_urls (callProgress cb f completed total) = [].
Proof.
  unfold callProgress. destruct cb as [cb|]; [|reflexivity].
  destruct (cb completed total) as [tr [e|]]; simpl;
    rewrite opened_urls_app; induction tr; simpl; auto.
Qed.

Section BatchStore.

Variable browser : Browser.
Variable total : nat.
Variable timeInSeconds : number.
Variable onProgress : option ProgressCallback.

(** The URL store only grows during a batch; the URLs given to [video.src]
    are distinct and designate the input files; the URLs of the results are
    distinct and designate their images. *)
Lemma loop_store (rest : list File) :
  forall i results store,
    let run := batch_loop browser total timeInSeconds onProgress i rest
                          results store in
    (exists added, snd run = store ++ added) /\
    Forall (fun u => List.length store <= url_id u /\
                     exists f, resolveURL u (snd run) = Some (OfFile f))
           (opened_urls (fst (fst run))) /\
    NoDup (opened_urls (fst (fst run))) /\
    forall final,
      snd (fst run) = Some final ->
      exists new,
        final = results ++ new /\
        Forall (fun r => List.length store <= url_id (thumbnail r) /\
                         sound_result (snd run) r) new /\
        NoDup (map thumbnail new).
Proof.
  induction rest as [|f rest IH]; intros i results store.
  - cbn. split; [exists []; now rewrite app_nil_r|].
    split; [constructor|]. split; [constructor|].
    intros final [= <-]. exists []. rewrite app_nil_r.
    repeat split; constructor.
  - cbn [batch_loop].
    pose proof (extraction_summary (browser i f) f timeInSeconds store) as Hsum.
    cbv zeta in Hsum.
    destruct (generateThumbnailFromVideo (browser i f) f timeInSeconds store)
      as [[tr out] store1].
    cbn [fst snd] in Hsum.
    destruct Hsum as (added1 & Hst1 & Hopen & Hlen & Hout).
    assert (Hgrow : List.length store <= List.length store1)
      by (rewrite Hst1, length_app; lia).
    assert (Hhead : Forall (fun u => url_id u < List.length store1)
                           (opened_urls tr)).
    { eapply Forall_impl; [|exact Hopen]. intros u [_ Hr].
      apply resolveURL_bound. congruence. }
    destruct out as [u|e|].
    + destruct Hout as (Hid & b & Hres & Hsrc & Hty & Hq).
      specialize (IH (i + 1)
                     (results ++ [mkResult f u (createThumbnailFileName (name f))])
                     store1).
      destruct (batch_loop _ _ _ _ _ rest _ _) as [[tr' r] store2].
      cbn [fst snd] in *.
      destruct IH as ([added2 Hst2] & Hopen2 & Hnd2 & Hfin2).
      split; [exists (added1 ++ added2); now rewrite Hst2, Hst1, app_assoc|].
      rewrite !opened_urls_app, callProgress_opened. cbn [app].
      split; [|split].
      * apply Forall_app. split.
        -- eapply Forall_impl; [|exact Hopen]. intros v [Hv Hr]. split; [lia|].
           exists f. rewrite Hst2. now apply resolveURL_extend.
        -- eapply Forall_impl; [|exact Hopen2]. intros v [Hv Hr]. split; [lia|].
           exact Hr.
      * apply NoDup_app; [now apply NoDup_short | exact Hnd2 |].
        intros v Hv1 Hv2.
        rewrite Forall_forall in Hhead, Hopen2.
        specialize (Hhead v Hv1). destruct (Hopen2 v Hv2) as [Hge _]. lia.
      * intros final Hfinal. destruct (Hfin2 final Hfinal) as (new & -> & Hnew & Hnd).
        exists (mkResult f u (createThumbnailFileName (name f)) :: new).
        rewrite <- app_assoc. split; [reflexivity|]. split.
        -- constructor.
           ++ cbn [thumbnail]. split; [lia|]. split; [reflexivity|].
              exists b. cbn [thumbnail file]. split; [|auto].
              rewrite Hst2. now apply resolveURL_extend.
           ++ eapply Forall_impl; [|exact Hnew]. intros r0 [Hge Hs].
              split; [lia | exact Hs].
        -- cbn [map thumbnail]. constructor; [|exact Hnd].
           intros Hin. apply in_map_iff in Hin. destruct Hin as (r0 & E & Hr0).
           rewrite Forall_forall in Hnew. destruct (Hnew r0 Hr0) as [Hge _].
           assert (url_id u < List.length store1)
             by (apply resolveURL_bound; congruence).
           rewrite E in Hge. lia.
    + specialize (IH (i + 1) results store1).
      destruct (batch_loop _ _ _ _ _ rest _ _) as [[tr' r] store2].
      cbn [fst snd] in *.
      destruct IH as ([added2 Hst2] & Hopen2 & Hnd2 & Hfin2).
      split; [exists (added1 ++ added2); now rewrite Hst2, Hst1, app_assoc|].
      rewrite opened_urls_app. cbn [opened_urls].
      split; [|split].
      * apply Forall_app. split.
        -- eapply Forall_impl; [|exact Hopen]. intros v [Hv Hr]. split; [lia|].
           exists f. rewrite Hst2. now apply resolveURL_extend.
        -- eapply Forall_impl; [|exact Hopen2]. intros v [Hv Hr]. split; [lia|].
           exact Hr.
      * apply NoDup_app; [now apply NoDup_short | exact Hnd2 |].
        intros v Hv1 Hv2.
        rewrite Forall_forall in Hhead, Hopen2.
        specialize (Hhead v Hv1). destruct (Hopen2 v Hv2) as [Hge _]. lia.
      * intros final Hfinal. destruct (Hfin2 final Hfinal) as (new & -> & Hnew & Hnd).
        exists new. split; [reflexivity|]. split; [|exact Hnd].
        eapply Forall_impl; [|exact Hnew]. intros r0 [Hge Hs].
        split; [lia | exact Hs].
    + cbn [fst snd]. split; [now exists added1|]. split; [|split].
      * eapply Forall_impl; [|exact Hopen]. intros v [Hv Hr]. split; [lia|].
        now exists f.
      * now apply NoDup_short.
      * discriminate.
Qed.

End BatchStore.

(** X4: every result of a batch is sound when the batch resolves: its
    [fileName] is [createThumbnailFileName] of the name of its file and its
    URL designates, in the URL store the batch leaves, a JPEG image of
    quality 0.8 made from that file.  No two results share a URL, and no URL
    minted before the batch is touched. *)
Theorem batch_results_are_sound
    (browser : Browser) (videoFiles : list File) (timeInSeconds : number)
    (onProgress : option ProgressCallback) (store : UrlStore)
    (results : list BatchResult) :
  let run := batchGenerateThumbnails browser videoFiles timeInSeconds
                                     onProgress store in
  snd (fst run) = Some results ->
  Forall (sound_result (snd run)) results /\
  NoDup (map thumbnail results) /\
  (exists added, snd run = store ++ added) /\
  (forall u target, resolveURL u store = Some target ->
                    resolveURL u (snd run) = Some target /\
                    ~ In u (map thumbnail results)).
Proof.
  intros run Hres. subst run. unfold batchGenerateThumbnails in *.
  destruct (loop_store browser (List.length videoFiles) timeInSeconds onProgress
              videoFiles 0 [] store) as ([added Hst] & _ & _ & Hfin).
  destruct (Hfin results Hres) as (new & E & Hnew & Hnd).
  cbn [app] in E. subst new.
  split; [eapply Forall_impl; [|exact Hnew]; now intros r [_ Hs]|].
  split; [exact Hnd|]. split; [now exists added|].
  intros u target Hu. split.
  - rewrite Hst. now apply resolveURL_extend.
  - intros Hin. apply in_map_iff in Hin. destruct Hin as (r & E & Hr).
    rewrite Forall_forall in Hnew. destruct (Hnew r Hr) as [Hge _].
    assert (url_id u < List.length store) by (apply resolveURL_bound; congruence).
    rewrite E in Hge. lia.
Qed.

Lemma batch_results_are_sound_witness :
  Forall (sound_result
            (snd (batchGenerateThumbnails sample_browser [clip; broken; archive]
                    num_1 None [])))
         [mkResult clip (BlobURL 1) "clip-thumb.jpg";
          mkResult archive (BlobURL 4) "archive.tar-thumb.jpg"].
Proof.
  apply (batch_results_are_sound sample_browser [clip; broken; archive] num_1
           None [] _ eq_refl).
Defined.

(** ** Downloads *)

Lemma downloadThumbnail_spec (thumbnailUrl : URL) (fileName : string)
    (doc : Document) :
  downloadThumbnail thumbnailUrl fileName doc
  = ([MkClick thumbnailUrl fileName],
     mkDocument (S (next_node doc))
                (remove Nat.eq_dec (next_node doc) (body doc)),
     None).
Proof.
  unfold downloadThumbnail, createElement, appendChild, removeChild.
  cbn [next_node body].
  destruct (in_dec Nat.eq_dec (next_node doc)
              (remove Nat.eq_dec (next_node doc) (body doc) ++ [next_node doc]))
    as [_|Hout].
  - rewrite remove_app, remove_remove_eq. cbn [remove].
    destruct (Nat.eq_dec (next_node doc) (next_node doc)); [|congruence].
    now rewrite app_nil_r.
  - exfalso. apply Hout. apply in_or_app. right. simpl. auto.
Qed.

(** X5: [downloadThumbnail] clicks once, on a link with the given URL and
    file name, and never throws: the link it removes is the one it has just
    appended.  In a document whose nodes were all created before, the body is
    left exactly as it was found. *)
Theorem downloadThumbnail_leaves_no_link
    (thumbnailUrl : URL) (fileName : string) (doc : Document) :
  let '(cs, doc', thrown) := downloadThumbnail thumbnailUrl fileName doc in
  cs = [MkClick thumbnailUrl fileName] /\ thrown = None /\
  (tidy doc -> body doc' = body doc /\ tidy doc').
Proof.
  rewrite downloadThumbnail_spec. split; [reflexivity|]. split; [reflexivity|].
  unfold tidy. cbn [body next_node]. intros Htidy.
  assert (Hfresh : ~ In (next_node doc) (body doc)).
  { intros Hin. rewrite Forall_forall in Htidy. specialize (Htidy _ Hin). lia. }
  rewrite notin_remove by exact Hfresh. split; [reflexivity|].
  eapply Forall_impl; [|exact Htidy]. intros node Hn. cbn beta in *. lia.
Qed.

Lemma downloadThumbnail_leaves_no_link_witness :
  body (snd (fst (downloadThumbnail (BlobURL 1) "clip-thumb.jpg"
                    (mkDocument 3 [0; 2]))))
  = [0; 2].
Proof.
  pose proof (downloadThumbnail_leaves_no_link (BlobURL 1) "clip-thumb.jpg"
                (mkDocument 3 [0; 2])) as H.
  destruct (downloadThumbnail (BlobURL 1) "clip-thumb.jpg" (mkDocument 3 [0; 2]))
    as [[cs doc'] thrown].
  destruct H as (_ & _ & H). apply H.
  repeat constructor.
Defined.

(** ** Numbered names *)

Lemma to_uint_nonnil (n : nat) : Nat.to_uint n <> Decimal.Nil.
Proof.
  rewrite <- (DecimalNat.Unsigned.of_to n) at 1.
  rewrite DecimalNat.Unsigned.to_of. apply DecimalFacts.unorm_nonnil.
Qed.

Lemma string_of_nat_parses (n : nat) :
  NilEmpty.uint_of_string (string_of_nat n) = Some (Nat.to_uint n).
Proof.
  unfold string_of_nat, NilZero.string_of_uint.
  pose proof (to_uint_nonnil n) as Hn.
  destruct (Nat.to_uint n) eqn:E; try congruence;
    rewrite <- E at 1; rewrite <- E; apply NilEmpty.usu.
Qed.

Lemma zeros_parse (k : nat) (s : string) (d : Decimal.uint) :
  NilEmpty.uint_of_string s = Some d ->
  exists d', NilEmpty.uint_of_string
               (string_of_list_ascii (repeat "0"%char k) ++ s) = Some d' /\
             Nat.of_uint d' = Nat.of_uint d.
Proof.
  intros Hs. induction k as [|k (d' & Hd' & Hv)].
  - exists d. auto.
  - exists (Decimal.D0 d'). split.
    + cbn [repeat string_of_list_ascii append NilEmpty.uint_of_string].
      rewrite Hd'. reflexivity.
    + rewrite <- Hv. reflexivity.
Qed.

Lemma padded_number_reads_back (width n : nat) :
  nat_of_string (padStart width "0" (string_of_nat n)) = Some n.
Proof.
  unfold nat_of_string, padStart.
  destruct (zeros_parse (width - String.length (string_of_nat n))
              (string_of_nat n) (Nat.to_uint n) (string_of_nat_parses n))
    as (d' & -> & Hv).
  cbn [option_map]. now rewrite Hv, DecimalNat.Unsigned.of_to.
Qed.

Lemma append_inv_tail (a b c : string) : (a ++ c = b ++ c)%string -> a = b.
Proof.
  revert b. induction a as [|x a IH]; intros [|y b] H.
  - reflexivity.
  - exfalso. apply (f_equal String.length) in H.
    simpl in H. rewrite length_append in H. lia.
  - exfalso. apply (f_equal String.length) in H.
    simpl in H. rewrite length_append in H. lia.
  - simpl in H. injection H as -> H. f_equal. now apply IH.
Qed.

Lemma append_inv_head (a b c : string) : (c ++ a = c ++ b)%string -> a = b.
Proof. induction c as [|x c IH]; simpl; [auto|]. intros [= H]. auto. Qed.

(** X6: the number written into a title or a download name reads back as
    the position plus one, whatever the padding; hence the thumbnails shown
    at different positions are downloaded under different names and carry
    different titles. *)
Theorem numbered_names_are_distinct (i j : nat) :
  nat_of_string (padStart 2 "0" (string_of_nat (i + 1))) = Some (i + 1) /\
  (downloadName i = downloadName j -> i = j) /\
  (("VIDEO " ++ padStart 2 "0" (string_of_nat (i + 1)))%string
   = ("VIDEO " ++ padStart 2 "0" (string_of_nat (j + 1)))%string -> i = j).
Proof.
  assert (Hinj : padStart 2 "0" (string_of_nat (i + 1))
                 = padStart 2 "0" (string_of_nat (j + 1)) -> i = j).
  { intros E. pose proof (padded_number_reads_back 2 (i + 1)) as Hi.
    rewrite E, padded_number_reads_back in Hi. injection Hi as Hi. lia. }
  split; [apply padded_number_reads_back|]. split.
  - unfold downloadName. intros E. apply append_inv_head in E.
    apply append_inv_tail in E. auto.
  - intros E. apply append_inv_head in E. auto.
Qed.

Lemma numbered_names_are_distinct_witness :
  downloadName 9 = "thumbnail-10.jpg" /\
  (downloadName 9 = downloadName 9 -> 9 = 9).
Proof.
  split; [reflexivity|].
  apply (proj1 (proj2 (numbered_names_are_distinct 9 9))).
Defined.

(** ** The uploader after [handleFiles] *)

Lemma thumbnailData_from_spec (results : list BatchResult) :
  forall index store,
    let '(data, store') := thumbnailData_from index results store in
    store' = store ++ map (fun r => OfFile (file r)) results /\
    map data_thumbnail data = map thumbnail results /\
    map data_src data
    = map BlobURL (seq (List.length store) (List.length results)) /\
    map data_title data
    = map (fun k => ("VIDEO " ++ padStart 2 "0" (string_of_nat (k + 1)))%string)
          (seq index (List.length results)).
Proof.
  induction results as [|r results IH]; intros index store.
  - cbn. rewrite app_nil_r. auto.
  - cbn [thumbnailData_from createObjectURL].
    specialize (IH (index + 1) (store ++ [OfFile (file r)])).
    destruct (thumbnailData_from (index + 1) results _) as [items store2].
    destruct IH as (-> & Hth & Hsrc & Htitle).
    rewrite length_app in Hsrc. cbn [List.length] in Hsrc.
    rewrite Nat.add_1_r in Hsrc, Htitle.
    cbn [map List.length seq data_thumbnail data_src data_title].
    rewrite Hth, Hsrc, Htitle, <- app_assoc. auto.
Qed.

Lemma render_app (tr1 tr2 : Trace) :
  forall st, render (tr1 ++ tr2) st = render tr2 (render tr1 st).
Proof.
  induction tr1 as [|ev tr1 IH]; intros st; [reflexivity|].
  destruct ev; simpl; apply IH.
Qed.

(** A trace whose only user-interface events are progress updates changes
    nothing but the progress. *)
Lemma render_progress_only (tr : Trace) :
  (forall e, In (Ui e) tr -> exists p, e = SetProgress p) ->
  forall st,
    dragActive (render tr st) = dragActive st /\
    processing (render tr st) = processing st /\
    generatedThumbnails (render tr st) = generatedThumbnails st.
Proof.
  induction tr as [|ev tr IH]; intros Hui st; [auto|].
  assert (Hui' : forall e, In (Ui e) tr -> exists p, e = SetProgress p)
    by (intros e He; apply Hui; now right).
  destruct ev as [| | | | | | | | | | |e]; cbn [render]; try (apply IH; exact Hui').
  destruct (Hui e (or_introl eq_refl)) as [p ->].
  destruct (IH Hui' (setState (SetProgress p) st)) as (H1 & H2 & H3).
  rewrite H1, H2, H3. auto.
Qed.

Lemma extraction_no_ui (h : Host) (f : File) (t : number) (store : UrlStore)
    (e : UiEvent) :
  ~ In (Ui e) (fst (fst (generateThumbnailFromVideo h f t store))).
Proof.
  oracle_cases h; cbn [fst snd app In]; intros H;
    repeat (destruct H as [H|H]; [discriminate H|]); exact H.
Qed.

(** The user-interface events of a batch are those of its progress
    callback. *)
Lemma batch_ui_events (browser : Browser) (total : nat) (t : number)
    (cb : ProgressCallback) (rest : list File) :
  forall i results store e,
    In (Ui e) (fst (fst (batch_loop browser total t (Some cb) i rest
                                    results store))) ->
    exists completed, In e (fst (cb completed total)).
Proof.
  induction rest as [|f rest IH]; intros i results store e; [intros []|].
  cbn [batch_loop].
  pose proof (extraction_no_ui (browser i f) f t store e) as Hno.
  destruct (generateThumbnailFromVideo (browser i f) f t store)
    as [[tr out] store1].
  cbn [fst snd] in Hno. destruct out as [u|err|].
  - specialize (IH (i + 1)
                   (results ++ [mkResult f u (createThumbnailFileName (name f))])
                   store1 e).
    destruct (batch_loop _ _ _ _ _ rest _ _) as [[tr' r] store2].
    cbn [fst snd] in *. intros Hin.
    apply in_app_or in Hin. destruct Hin as [Hin|Hin]; [contradiction|].
    apply in_app_or in Hin. destruct Hin as [Hin|Hin]; [|auto].
    unfold callProgress in Hin.
    destruct (cb (i + 1) total) as [ui thrown] eqn:Ecb.
    destruct Hin as [Hin|Hin]; [discriminate|].
    apply in_app_or in Hin. destruct Hin as [Hin|Hin].
    + apply in_map_iff in Hin. destruct Hin as (e' & [= ->] & He').
      exists (i + 1). now rewrite Ecb.
    + destruct thrown; [destruct Hin as [Hin|[]]; discriminate | destruct Hin].
  - specialize (IH (i + 1) results store1 e).
    destruct (batch_loop _ _ _ _ _ rest _ _) as [[tr' r] store2].
    cbn [fst snd] in *. intros Hin.
    apply in_app_or in Hin. destruct Hin as [Hin|Hin]; [contradiction|].
    destruct Hin as [Hin|Hin]; [discriminate | auto].
  - cbn [fst snd]. intros Hin. contradiction.
Qed.

Lemma uploader_batch_ui (browser : Browser) (videoFiles : list File)
    (store : UrlStore) (e : UiEvent) :
  In (Ui e) (fst (fst (batchGenerateThumbnails browser videoFiles num_1
                         (Some uploaderProgress) store))) ->
  exists p, e = SetProgress p.
Proof.
  intros Hin. apply batch_ui_events in Hin. destruct Hin as [completed Hin].
  destruct Hin as [<-|[]]. eauto.
Qed.

Lemma thumbnailData_from_items (results : list BatchResult) :
  forall index store,
    let '(data, store') := thumbnailData_from index results store in
    Forall2 (fun r d =>
               data_thumbnail d = thumbnail r /\
               data_aspectRatio d = "video" /\
               List.length store <= url_id (data_src d) /\
               resolveURL (data_src d) store' = Some (OfFile (file r)))
            results data.
Proof.
  induction results as [|r results IH]; intros index store.
  - cbn. constructor.
  - cbn [thumbnailData_from createObjectURL].
    specialize (IH (index + 1) (store ++ [OfFile (file r)])).
    pose proof (thumbnailData_from_spec results (index + 1)
                  (store ++ [OfFile (file r)])) as Hspec.
    destruct (thumbnailData_from (index + 1) results _) as [items store2].
    destruct Hspec as (-> & _).
    constructor.
    + cbn [data_thumbnail data_aspectRatio data_src url_id].
      repeat split; try reflexivity; try lia.
      apply resolveURL_extend.
      apply (resolveURL_fresh (OfFile (file r)) store).
    + eapply Forall2_impl; [|exact IH].
      intros r0 d (H1 & H2 & H3 & H4). rewrite length_app in H3. simpl in H3.
      repeat split; auto. lia.
Qed.

(** The three ways [handleFiles] can go, with the state it leaves. *)
Lemma handleFiles_outcome (browser : Browser)
    (notify : option (list VideoThumbnailData -> option JsError))
    (files : list File) (store : UrlStore) (st : Uploader) :
  let videoFiles := filter isValidVideoFile files in
  let brun := batchGenerateThumbnails browser videoFiles num_1
                                      (Some uploaderProgress) store in
  let run := handleFiles browser notify files store in
  let st' := render (fst (fst run)) st in
  (videoFiles = [] /\
   run = ([Ui (Alert "Please select valid video files (MP4, WebM, OGG, MOV, AVI)")],
          true, store) /\
   st' = st) \/
  (videoFiles <> [] /\ snd (fst brun) = None /\
   snd (fst run) = false /\ snd run = snd brun /\
   opened_urls (fst (fst run)) = opened_urls (fst (fst brun)) /\
   processing st' = true /\
   generatedThumbnails st' = generatedThumbnails st /\
   dragActive st' = dragActive st) \/
  (videoFiles <> [] /\
   exists results,
     snd (fst brun) = Some results /\
     snd (fst run) = true /\
     snd run = snd (thumbnailData_from 0 results (snd brun)) /\
     opened_urls (fst (fst run)) = opened_urls (fst (fst brun)) /\
     processing st' = false /\
     generatedThumbnails st' = fst (thumbnailData_from 0 results (snd brun)) /\
     dragActive st' = dragActive st).
Proof.
  cbv zeta. unfold handleFiles.
  remember (filter isValidVideoFile files) as videoFiles eqn:E. clear E.
  destruct videoFiles as [|f0 videoFiles'].
  - left. auto.
  - right. cbn [List.length Nat.eqb].
    pose proof (uploader_batch_ui browser (f0 :: videoFiles') store) as Hui.
    destruct (batchGenerateThumbnails browser (f0 :: videoFiles') num_1
                (Some uploaderProgress) store) as [[tr [results|]] store1];
      cbn [fst snd] in *.
    + right. split; [discriminate|]. exists results.
      destruct (thumbnailData_from 0 results store1) as [data store2].
      cbn [fst snd]. split; [reflexivity|]. split; [reflexivity|].
      split; [reflexivity|].
      set (st0 := setState (SetProgress num_0) (setState (SetProcessing true) st)).
      destruct (render_progress_only tr Hui st0) as (Hd & Hp & Hg).
      assert (Hnotify : forall s,
                 render (match notify with
                         | Some cb =>
                             Ui (ThumbnailsGenerated data)
                             :: match cb data with
                                | Some error =>
                                    [ConsoleError "Error processing videos:" error;
                                     Ui (Alert "Error processing videos. Please try again.")]
                                | None => []
                                end
                         | None => []
                         end ++ [Ui (SetProcessing false)]) s
                 = setState (SetProcessing false) s).
      { intros s. destruct notify as [cb|]; [destruct (cb data)|]; reflexivity. }
      split.
      { destruct notify as [cb|]; [destruct (cb data)|];
          rewrite !opened_urls_app; cbn [opened_urls app];
          now rewrite app_nil_r. }
      cbn [app render]. fold st0.
      rewrite render_app. cbn [app render]. rewrite Hnotify.
      cbn [setState processing generatedThumbnails dragActive].
      rewrite Hd. auto.
    + left. split; [discriminate|].
      set (st0 := setState (SetProgress num_0) (setState (SetProcessing true) st)).
      destruct (render_progress_only tr Hui st0) as (Hd & Hp & Hg).
      cbn [app render opened_urls]. fold st0. rewrite Hd, Hp, Hg. auto 10.
Qed.

Lemma filter_nil_iff {A : Type} (p : A -> bool) (l : list A) :
  filter p l = [] <-> Forall (fun x => p x = false) l.
Proof.
  induction l as [|a l IH]; simpl.
  - split; constructor.
  - destruct (p a) eqn:Ha.
    + split; [discriminate|]. intros H. inversion H. congruence.
    + rewrite IH. split; [now constructor | now inversion 1].
Qed.

(** X7: [handleFiles] does nothing but show the alert about valid video
    files exactly when none of the files given (possibly none at all) has a
    whitelisted media type; then no extraction is started, no URL is minted
    and the state of the uploader is unchanged. *)
Theorem handleFiles_without_valid_file
    (browser : Browser)
    (notify : option (list VideoThumbnailData -> option JsError))
    (files : list File) (store : UrlStore) (st : Uploader) :
  let run := handleFiles browser notify files store in
  (Forall (fun f => isValidVideoFile f = false) files <->
   fst (fst run)
   = [Ui (Alert "Please select valid video files (MP4, WebM, OGG, MOV, AVI)")]) /\
  (Forall (fun f => isValidVideoFile f = false) files ->
   snd (fst run) = true /\ snd run = store /\
   extracted (fst (fst run)) = [] /\ render (fst (fst run)) st = st).
Proof.
  intros run. subst run. rewrite <- filter_nil_iff.
  unfold handleFiles.
  destruct (filter isValidVideoFile files) as [|f0 rest] eqn:E.
  - split; [split; reflexivity|]. intros _. auto.
  - cbn [List.length Nat.eqb].
    destruct (batchGenerateThumbnails browser (f0 :: rest) num_1
                (Some uploaderProgress) store) as [[tr [results|]] store1].
    + destruct (thumbnailData_from 0 results store1) as [data store2].
      split; [|discriminate]. split; [discriminate|].
      cbn [fst snd app]. discriminate.
    + split; [|discriminate]. split; [discriminate|].
      cbn [fst snd app]. discriminate.
Qed.

Lemma handleFiles_without_valid_file_witness :
  snd (handleFiles sample_browser None [photo] [OfFile clip]) = [OfFile clip].
Proof.
  apply (proj2 (handleFiles_without_valid_file sample_browser None [photo]
                  [OfFile clip] initialUploader)).
  repeat constructor.
Defined.

Lemma nth_error_seq_app {A : Type} (s l : list A) :
  map (fun id => nth_error (s ++ l) id) (seq (List.length s) (List.length l))
  = map Some l.
Proof.
  revert s. induction l as [|a l IH]; intros s; [reflexivity|].
  cbn [List.length seq map]. f_equal.
  - rewrite nth_error_app2, Nat.sub_diag by apply Nat.le_refl. reflexivity.
  - specialize (IH (s ++ [a])). rewrite length_app, <- app_assoc in IH.
    cbn [List.length app] in IH. rewrite Nat.add_1_r in IH. exact IH.
Qed.

(** X8: when [handleFiles] runs to its end on files of which some are
    valid, the uploader is no longer processing and shows one card per valid
    file whose extraction succeeded, in the order of the files: the source
    URL of the card designates that file, its thumbnail URL a JPEG image
    made from the same file, and the cards are titled VIDEO 01, VIDEO 02, ...
    by position, without gaps for the files that failed. *)
Theorem handleFiles_shows_successes
    (browser : Browser)
    (notify : option (list VideoThumbnailData -> option JsError))
    (files : list File) (store : UrlStore) (st : Uploader) :
  let videoFiles := filter isValidVideoFile files in
  let successes :=
    map (fun x => snd (fst x))
        (filter succeeded (verdicts browser num_1 0 videoFiles)) in
  let run := handleFiles browser notify files store in
  let cards := generatedThumbnails (render (fst (fst run)) st) in
  videoFiles <> [] ->
  snd (fst run) = true ->
  processing (render (fst (fst run)) st) = false /\
  map (fun d => resolveURL (data_src d) (snd run)) cards
  = map (fun f => Some (OfFile f)) successes /\
  Forall (fun d =>
            exists f b,
              resolveURL (data_src d) (snd run) = Some (OfFile f) /\
              resolveURL (data_thumbnail d) (snd run) = Some (OfBlob b) /\
              blob_source b = f /\ blob_type b = "image/jpeg" /\
              data_aspectRatio d = "video") cards /\
  map data_title cards
  = map (fun k => ("VIDEO " ++ padStart 2 "0" (string_of_nat (k + 1)))%string)
        (seq 0 (List.length successes)).
Proof.
  intros videoFiles successes run cards Hsome Hdone.
  subst run cards successes.
  destruct (handleFiles_outcome browser notify files store st)
    as [(Hnil & _)|[(_ & _ & Hf & _)|(_ & results & Hres & _ & Hst & _ & Hp & Hg & _)]];
    [contradiction | congruence |].
  fold videoFiles in Hres, Hst, Hg. rewrite Hg, Hst. clear Hg Hst.
  unfold batchGenerateThumbnails in *.
  pose proof (loop_end_no_hang browser (List.length videoFiles) num_1
                (Some uploaderProgress) videoFiles 0 [] store results Hres) as Hno.
  destruct (loop_runs_to_end browser (List.length videoFiles) num_1
              (Some uploaderProgress) videoFiles 0 [] store Hno)
    as (added & Hres' & Hfiles & _).
  destruct (loop_store browser (List.length videoFiles) num_1
              (Some uploaderProgress) videoFiles 0 [] store)
    as (_ & _ & _ & Hfin).
  destruct (Hfin results Hres) as (new & Enew & Hsound & _).
  rewrite Hres in Hres'. injection Hres' as ->. cbn [app] in Enew. subst new.
  destruct (batch_loop browser (List.length videoFiles) num_1
              (Some uploaderProgress) 0 videoFiles [] store)
    as [[tr out] store1].
  cbn [fst snd] in *.
  pose proof (thumbnailData_from_spec added 0 store1) as Hspec.
  pose proof (thumbnailData_from_items added 0 store1) as Hitems.
  destruct (thumbnailData_from 0 added store1) as [data store2].
  cbn [fst snd]. destruct Hspec as (Hst2 & Hth & Hsrc & Htitle).
  split; [exact Hp|]. split; [|split].
  - rewrite <- Hfiles, !map_map.
    transitivity (map (fun id => nth_error store2 id)
                      (map url_id (map data_src data))).
    { rewrite !map_map. apply map_ext. intros d. now destruct (data_src d). }
    rewrite Hsrc, (map_map BlobURL url_id). cbn [url_id]. rewrite map_id.
    rewrite Hst2, <- (length_map (fun r => OfFile (file r)) added).
    rewrite nth_error_seq_app, !map_map. reflexivity.
  - assert (Himg : Forall (fun r => exists b,
                             resolveURL (thumbnail r) store2 = Some (OfBlob b) /\
                             blob_source b = file r /\
                             blob_type b = "image/jpeg") added).
    { eapply Forall_impl; [|exact Hsound].
      intros r (_ & _ & b & Hb & Hsrcb & Hty & _). exists b.
      rewrite Hst2. split; [now apply resolveURL_extend | auto]. }
    clear - Himg Hitems. revert Himg.
    induction Hitems as [|r d rs ds (H1 & H2 & H3 & H4) _ IH];
      intros Himg; constructor.
    + apply Forall_inv in Himg. destruct Himg as (b & Hb & Hsrcb & Hty).
      exists (file r), b. rewrite H1. repeat split; auto.
    + apply IH. now apply Forall_inv_tail in Himg.
  - rewrite Htitle, <- Hfiles, !length_map. reflexivity.
Qed.

Lemma handleFiles_shows_successes_witness :
  map data_title
      (generatedThumbnails
         (render (fst (fst (handleFiles sample_browser None
                              [photo; clip; broken; archive] [])))
                 initialUploader))
  = ["VIDEO 01"; "VIDEO 02"].
Proof.
  destruct (handleFiles_shows_successes sample_browser None
              [photo; clip; broken; archive] [] initialUploader)
    as (_ & _ & _ & H); [discriminate | reflexivity | exact H].
Defined.

(** X9: after [handleFiles] on files of which some are valid, the uploader
    is still in its processing state exactly when the extraction of one of
    the valid files never settles; in that case [handleFiles] does not run to
    its end and the cards shown before are left in place. *)
Theorem uploader_stuck_iff_extraction_hangs
    (browser : Browser)
    (notify : option (list VideoThumbnailData -> option JsError))
    (files : list File) (store : UrlStore) (st : Uploader) :
  let videoFiles := filter isValidVideoFile files in
  let hanging := existsb hangs (verdicts browser num_1 0 videoFiles) in
  let run := handleFiles browser notify files store in
  videoFiles <> [] ->
  processing (render (fst (fst run)) st) = hanging /\
  snd (fst run) = negb hanging /\
  (hanging = true ->
   generatedThumbnails (render (fst (fst run)) st) = generatedThumbnails st).
Proof.
  intros videoFiles hanging run Hsome. subst run hanging videoFiles.
  destruct (handleFiles_outcome browser notify files store st)
    as [(Hnil & _)|[(_ & Hnone & Hf & _ & _ & Hp & Hg & _)
                   |(_ & results & Hres & Hf & _ & _ & Hp & _)]];
    [contradiction | |];
    set (videoFiles := filter isValidVideoFile files) in *;
    unfold batchGenerateThumbnails in *.
  - destruct (existsb hangs (verdicts browser num_1 0 videoFiles)) eqn:Hh.
    + rewrite Hp, Hf. auto.
    + exfalso.
      destruct (loop_runs_to_end browser (List.length videoFiles) num_1
                  (Some uploaderProgress) videoFiles 0 [] store Hh)
        as (added & Hres & _).
      congruence.
  - rewrite (loop_end_no_hang browser (List.length videoFiles) num_1
               (Some uploaderProgress) videoFiles 0 [] store results Hres).
    rewrite Hp, Hf. split; [reflexivity|]. split; [reflexivity | discriminate].
Qed.

Lemma uploader_stuck_iff_extraction_hangs_witness :
  processing (render (fst (fst (handleFiles sample_browser None
                                  [clip; endless; archive] [])))
                     initialUploader) = true.
Proof.
  apply (uploader_stuck_iff_extraction_hangs sample_browser None
           [clip; endless; archive] [] initialUploader).
  discriminate.
Defined.

(** X10: the uploader shows its error alert only when the callback of its
    parent throws.  A failed extraction is never reported that way, and with
    [AdminPanel] as parent, when the panel has no [onVideoDataUpdate], the
    alert is never shown. *)
Theorem error_alert_only_from_parent
    (browser : Browser)
    (notify : option (list VideoThumbnailData -> option JsError))
    (files : list File) (store : UrlStore) :
  let tr := fst (fst (handleFiles browser notify files store)) in
  (In (Ui (Alert "Error processing videos. Please try again.")) tr ->
   exists cb data e, notify = Some cb /\ cb data = Some e) /\
  (notify = Some (handleThumbnailsGenerated None) ->
   ~ In (Ui (Alert "Error processing videos. Please try again.")) tr).
Proof.
  intros tr.
  assert (H : In (Ui (Alert "Error processing videos. Please try again.")) tr ->
              exists cb data e, notify = Some cb /\ cb data = Some e).
  { subst tr. unfold handleFiles.
    destruct (filter isValidVideoFile files) as [|f0 rest].
    - cbn. intros [[=]|[]].
    - cbn [List.length Nat.eqb].
      pose proof (uploader_batch_ui browser (f0 :: rest) store) as Hui.
      destruct (batchGenerateThumbnails browser (f0 :: rest) num_1
                  (Some uploaderProgress) store) as [[btr [results|]] store1];
        cbn [fst snd] in *.
      + destruct (thumbnailData_from 0 results store1) as [data store2].
        cbn [fst snd app]. intros Hin.
        destruct Hin as [[=]|[[=]|Hin]].
        apply in_app_or in Hin. destruct Hin as [Hin|Hin].
        { destruct (Hui _ Hin) as [p [=]]. }
        destruct Hin as [[=]|Hin].
        destruct notify as [cb|].
        * destruct (cb data) as [e|] eqn:Ecb; [eauto|].
          cbn in Hin. destruct Hin as [[=]|[[=]|[]]].
        * cbn in Hin. destruct Hin as [[=]|[]].
      + cbn [fst snd app]. intros Hin.
        destruct Hin as [[=]|[[=]|Hin]].
        destruct (Hui _ Hin) as [p [=]]. }
  split; [exact H|].
  intros -> Hin. destruct (H Hin) as (cb & data & e & [= <-] & He).
  discriminate He.
Qed.

Lemma error_alert_only_from_parent_witness :
  ~ In (Ui (Alert "Error processing videos. Please try again."))
       (fst (fst (handleFiles sample_browser
                    (Some (handleThumbnailsGenerated None))
                    [clip; broken] []))).
Proof.
  apply (proj2 (error_alert_only_from_parent sample_browser
                  (Some (handleThumbnailsGenerated None)) [clip; broken] [])).
  reflexivity.
Defined.

(** ** Downloading every thumbnail *)

Lemma NoDup_map_injective {A B : Type} (f : A -> B) (l : list A) :
  (forall x y, f x = f y -> x = y) -> NoDup l -> NoDup (map f l).
Proof.
  intros Hinj Hnd. induction Hnd as [|a l Hout _ IH]; simpl; constructor; auto.
  intros Hin. apply in_map_iff in Hin. destruct Hin as (x & E & Hx).
  apply Hinj in E. subst x. contradiction.
Qed.

Lemma downloadName_injective (i j : nat) :
  downloadName i = downloadName j -> i = j.
Proof.
  unfold downloadName. intros E.
  apply append_inv_head, append_inv_tail in E.
  pose proof (padded_number_reads_back 2 (i + 1)) as Hi.
  rewrite E, padded_number_reads_back in Hi. injection Hi as Hi. lia.
Qed.

Lemma downloadAll_from_spec (items : list VideoThumbnailData) :
  forall index doc,
    let '(cs, doc', thrown) := downloadAll_from index items doc in
    thrown = None /\
    map click_href cs = map data_thumbnail items /\
    map click_download cs = map downloadName (seq index (List.length items)) /\
    (tidy doc -> body doc' = body doc /\ tidy doc').
Proof.
  induction items as [|item items IH]; intros index doc.
  - cbn. auto.
  - cbn [downloadAll_from]. rewrite downloadThumbnail_spec.
    specialize (IH (index + 1)
                   (mkDocument (S (next_node doc))
                               (remove Nat.eq_dec (next_node doc) (body doc)))).
    destruct (downloadAll_from (index + 1) items _) as [[cs doc2] thrown].
    destruct IH as (-> & Hh & Hd & Hbody).
    rewrite Nat.add_1_r in Hd.
    cbn [app map click_href click_download List.length seq].
    rewrite Hh, Hd. do 3 (split; [reflexivity|]).
    unfold tidy in *. cbn [body next_node] in *. intros Htidy.
    assert (Hfresh : ~ In (next_node doc) (body doc)).
    { intros Hin. rewrite Forall_forall in Htidy.
      specialize (Htidy _ Hin). lia. }
    rewrite notin_remove in Hbody by exact Hfresh.
    apply Hbody. eapply Forall_impl; [|exact Htidy].
    intros node Hn. cbn beta in *. lia.
Qed.

(** X11: [downloadAllThumbnails] clicks once per card, in the order of the
    cards, on a link to the thumbnail of the card, and names the downloads
    [thumbnail-01.jpg], [thumbnail-02.jpg], ... by position, so that no two
    downloads of one call share a name.  It never throws, and a document
    whose nodes were all created before gets its body back unchanged. *)
Theorem downloadAllThumbnails_clicks_each_card (st : Uploader) (doc : Document) :
  let '(cs, doc', thrown) := downloadAllThumbnails st doc in
  thrown = None /\
  map click_href cs = map data_thumbnail (generatedThumbnails st) /\
  map click_download cs
  = map downloadName (seq 0 (List.length (generatedThumbnails st))) /\
  NoDup (map click_download cs) /\
  (tidy doc -> body doc' = body doc).
Proof.
  unfold downloadAllThumbnails.
  pose proof (downloadAll_from_spec (generatedThumbnails st) 0 doc) as H.
  destruct (downloadAll_from 0 (generatedThumbnails st) doc) as [[cs doc'] thrown].
  destruct H as (Ht & Hh & Hd & Hb).
  repeat split; auto.
  - rewrite Hd. apply NoDup_map_injective; [|apply seq_NoDup].
    intros i j. apply downloadName_injective.
  - intros Htidy. apply (Hb Htidy).
Qed.

Lemma downloadAllThumbnails_clicks_each_card_witness :
  body (snd (fst (downloadAllThumbnails
                    (mkUploader false false num_0
                       [mkData (BlobURL 2) (BlobURL 1) "VIDEO 01" "video";
                        mkData (BlobURL 5) (BlobURL 4) "VIDEO 02" "video"])
                    (mkDocument 7 [3; 6]))))
  = [3; 6].
Proof.
  pose proof (downloadAllThumbnails_clicks_each_card
                (mkUploader false false num_0
                   [mkData (BlobURL 2) (BlobURL 1) "VIDEO 01" "video";
                    mkData (BlobURL 5) (BlobURL 4) "VIDEO 02" "video"])
                (mkDocument 7 [3; 6])) as H.
  destruct (downloadAllThumbnails _ _) as [[cs doc'] thrown].
  destruct H as (_ & _ & _ & _ & H). apply H.
  repeat constructor.
Defined.

(** ** The URLs held by the uploader *)

Lemma in_shown (st : Uploader) (u : URL) :
  In u (shown st) <->
  exists d, In d (generatedThumbnails st) /\
            (u = data_src d \/ u = data_thumbnail d).
Proof.
  unfold shown. rewrite in_flat_map. split.
  - intros (d & Hd & [<-|[<-|[]]]); eauto.
  - intros (d & Hd & [-> | ->]); exists d; simpl; auto.
Qed.

Lemma cards_NoDup (data : list VideoThumbnailData) :
  NoDup (map data_src data) ->
  NoDup (map data_thumbnail data) ->
  (forall d d', In d data -> In d' data -> data_src d <> data_thumbnail d') ->
  NoDup (flat_map (fun item => [data_src item; data_thumbnail item]) data).
Proof.
  induction data as [|d data IH]; intros Hs Ht Hdis; [constructor|].
  cbn [map flat_map app] in *.
  apply NoDup_cons_iff in Hs. destruct Hs as [Hs1 Hs2].
  apply NoDup_cons_iff in Ht. destruct Ht as [Ht1 Ht2].
  assert (IH' : NoDup (flat_map (fun item => [data_src item; data_thumbnail item])
                                data)).
  { apply IH; auto. intros x y Hx Hy. apply Hdis; now right. }
  constructor; [|constructor; [|exact IH']].
  - intros [E|Hin].
    + apply (Hdis d d); simpl; auto.
    + apply in_flat_map in Hin. destruct Hin as (x & Hx & [E|[E|[]]]).
      * apply Hs1. rewrite <- E. now apply in_map.
      * apply (Hdis d x); simpl; auto.
  - intros Hin. apply in_flat_map in Hin. destruct Hin as (x & Hx & [E|[E|[]]]).
    + apply (Hdis x d); simpl; auto.
    + apply Ht1. rewrite <- E. now apply in_map.
Qed.

Lemma Forall2_Forall {A B : Type} (R : A -> B -> Prop) (P : A -> Prop)
    (Q : B -> Prop) (l : list A) (l' : list B) :
  (forall x y, R x y -> P x -> Q y) ->
  Forall2 R l l' -> Forall P l -> Forall Q l'.
Proof.
  intros Himp H2. induction H2 as [|x y l l' Hxy _ IH]; intros HP.
  - constructor.
  - inversion HP; subst. constructor; eauto.
Qed.

(** What [handleFiles] does to the URLs: the store grows; every URL handed
    to [video.src] is new and designates a file; and either the cards are
    left as they were, or the new cards hold new, valid, pairwise distinct
    URLs, none of which is a URL handed to [video.src]. *)
Lemma handleFiles_urls (browser : Browser)
    (notify : option (list VideoThumbnailData -> option JsError))
    (files : list File) (store : UrlStore) (st : Uploader) :
  let run := handleFiles browser notify files store in
  let st' := render (fst (fst run)) st in
  (exists added, snd run = store ++ added) /\
  Forall (fun u => List.length store <= url_id u /\
                   exists f, resolveURL u (snd run) = Some (OfFile f))
         (opened_urls (fst (fst run))) /\
  (generatedThumbnails st' = generatedThumbnails st \/
   NoDup (shown st') /\
   Forall (fun u => List.length store <= url_id u /\
                    resolveURL u (snd run) <> None /\
                    ~ In u (opened_urls (fst (fst run))))
          (shown st')).
Proof.
  cbv zeta.
  destruct (handleFiles_outcome browser notify files store st)
    as [(_ & Hrun & Hst)
       |[(_ & Hnone & _ & Hstore & Hopen & _ & Hg & _)
        |(_ & results & Hres & _ & Hstore & Hopen & _ & Hg & _)]].
  - rewrite Hrun. cbn [fst snd opened_urls].
    split; [exists []; now rewrite app_nil_r|]. split; [constructor|].
    left. rewrite Hrun in Hst. cbn [fst] in Hst. now rewrite Hst.
  - rewrite Hstore, Hopen. unfold batchGenerateThumbnails.
    destruct (loop_store browser
                (List.length (filter isValidVideoFile files)) num_1
                (Some uploaderProgress) (filter isValidVideoFile files) 0 []
                store) as (Hadd & Hop & _).
    split; [exact Hadd|]. split; [exact Hop|]. now left.
  - rewrite Hstore, Hopen. unfold batchGenerateThumbnails in *.
    destruct (loop_store browser
                (List.length (filter isValidVideoFile files)) num_1
                (Some uploaderProgress) (filter isValidVideoFile files) 0 []
                store) as ([added Hadd] & Hop & _ & Hfin).
    destruct (Hfin results Hres) as (new & Enew & Hsound & Hnd).
    cbn [app] in Enew. subst new. clear Hfin Hres.
    set (brun := batch_loop browser _ num_1 _ 0 _ [] store) in *.
    destruct brun as [[tr out] store1]. cbn [fst snd] in *.
    pose proof (thumbnailData_from_spec results 0 store1) as Hspec.
    pose proof (thumbnailData_from_items results 0 store1) as Hitems.
    destruct (thumbnailData_from 0 results store1) as [data store2].
    cbn [fst snd] in *. destruct Hspec as (Hst2 & Hth & Hsrc & _).
    assert (Hlen : List.length store <= List.length store1)
      by (rewrite Hadd, length_app; lia).
    assert (Hcards :
              Forall (fun d =>
                        List.length store1 <= url_id (data_src d) /\
                        resolveURL (data_src d) store2 <> None /\
                        List.length store <= url_id (data_thumbnail d) /\
                        exists b, resolveURL (data_thumbnail d) store1
                                  = Some (OfBlob b)) data).
    { refine (Forall2_Forall _ _ _ _ _ _ Hitems Hsound).
      intros r d (H1 & _ & H3 & H4) (Hge & _ & b & Hb & _).
      rewrite H1. repeat split; auto; [congruence | eauto]. }
    rewrite Forall_forall in Hcards, Hop.
    split; [exists (added ++ map (fun r => OfFile (file r)) results);
            now rewrite Hst2, Hadd, app_assoc|].
    split.
    { apply Forall_forall. intros u Hu. destruct (Hop u Hu) as (Hge & f & Hf).
      split; [exact Hge|]. exists f. rewrite Hst2. now apply resolveURL_extend. }
    right. split.
    + unfold shown. rewrite Hg. apply cards_NoDup.
      * rewrite Hsrc. apply NoDup_map_injective; [|apply seq_NoDup].
        now intros x y [=].
      * now rewrite Hth.
      * intros d d' Hd Hd' E.
        destruct (Hcards d Hd) as (Hge & _).
        destruct (Hcards d' Hd') as (_ & _ & _ & b & Hb).
        assert (url_id (data_thumbnail d') < List.length store1)
          by (apply resolveURL_bound; congruence).
        rewrite E in Hge. lia.
    + apply Forall_forall. intros u Hu. apply in_shown in Hu.
      destruct Hu as (d & Hd & Hu). rewrite Hg in Hd.
      destruct (Hcards d Hd) as (Hsge & Hsres & Htge & b & Hb).
      destruct Hu as [-> | ->].
      * split; [lia|]. split; [exact Hsres|].
        intros Hin. destruct (Hop _ Hin) as (_ & f & Hf).
        assert (url_id (data_src d) < List.length store1)
          by (apply resolveURL_bound; congruence).
        lia.
      * split; [exact Htge|]. split.
        -- rewrite Hst2. erewrite resolveURL_extend by exact Hb. discriminate.
        -- intros Hin. destruct (Hop _ Hin) as (_ & f & Hf). congruence.
Qed.

(** X12: the URL that an extraction mints for [video.src] is never
    released.  After [handleFiles] and a following [clearThumbnails], every
    such URL still designates its file and is not among the URLs revoked;
    only the URLs of the cards are.  (Revocations and cards from before the
    call can only concern URLs minted before it.) *)
Theorem source_urls_outlive_clear
    (browser : Browser)
    (notify : option (list VideoThumbnailData -> option JsError))
    (files : list File) (store : UrlStore) (st : Uploader)
    (revoked : list URL) :
  Forall (fun v => url_id v < List.length store) revoked ->
  Forall (fun v => url_id v < List.length store) (shown st) ->
  let run := handleFiles browser notify files store in
  let cleared := clearThumbnails (render (fst (fst run)) st) revoked in
  Forall (fun u => (exists f, resolveURL u (snd run) = Some (OfFile f)) /\
                   ~ In u (fst cleared))
         (opened_urls (fst (fst run))) /\
  (forall u, In u (fst cleared) ->
             In u revoked \/ In u (shown (render (fst (fst run)) st))).
Proof.
  intros Hrev Hshown run cleared. subst run cleared.
  destruct (handleFiles_urls browser notify files store st)
    as (_ & Hopen & Hcards).
  unfold clearThumbnails. cbn [fst]. fold (shown (render (fst (fst
    (handleFiles browser notify files store))) st)).
  split; [|intros u Hu; now apply in_app_or in Hu].
  rewrite Forall_forall in *. intros u Hu.
  destruct (Hopen u Hu) as (Hge & Hf). split; [exact Hf|].
  intros Hin. apply in_app_or in Hin. destruct Hin as [Hin|Hin].
  - specialize (Hrev u Hin). cbn beta in Hrev. lia.
  - destruct Hcards as [Hsame|[_ Hnew]].
    + unfold shown in Hin, Hshown. rewrite Hsame in Hin.
      specialize (Hshown u Hin). cbn beta in Hshown. lia.
    + destruct (Hnew u Hin) as (_ & _ & Hout). contradiction.
Qed.

Lemma source_urls_outlive_clear_witness :
  resolveURL (BlobURL 0)
             (snd (handleFiles sample_browser None [clip; broken] []))
  = Some (OfFile clip) /\
  ~ In (BlobURL 0)
       (fst (clearThumbnails
               (render (fst (fst (handleFiles sample_browser None
                                    [clip; broken] [])))
                       initialUploader) [])).
Proof.
  destruct (source_urls_outlive_clear sample_browser None [clip; broken] []
              initialUploader [] (Forall_nil _) (Forall_nil _)) as [H _].
  apply Forall_inv in H. destruct H as [_ H].
  split; [reflexivity | exact H].
Defined.

(** ** The page invariant *)

Lemma URL_eqb_eq (u v : URL) : URL_eqb u v = true <-> u = v.
Proof.
  destruct u as [a], v as [b]. unfold URL_eqb. cbn [url_id].
  rewrite Nat.eqb_eq. split; congruence.
Qed.

Lemma live_iff (w : World) (u : URL) :
  live w u = true <->
  resolveURL u (urls w) <> None /\ ~ In u (revocations w).
Proof.
  unfold live. destruct (resolveURL u (urls w)) as [target|].
  - rewrite negb_true_iff. split.
    + intros Hex. split; [discriminate|]. intros Hin.
      assert (existsb (URL_eqb u) (revocations w) = true).
      { apply existsb_exists. exists u. split; [exact Hin|]. now apply URL_eqb_eq. }
      congruence.
    + intros [_ Hout]. destruct (existsb _ _) eqn:Hex; [|reflexivity].
      apply existsb_exists in Hex. destruct Hex as (v & Hv & E).
      apply URL_eqb_eq in E. subst v. contradiction.
  - split; [discriminate|]. intros [H _]. congruence.
Qed.

Lemma consistent_intro (w : World) :
  Forall (fun u => url_id u < List.length (urls w)) (revocations w) ->
  NoDup (revocations w) ->
  (forall u, In u (shown (uploader w)) ->
             resolveURL u (urls w) <> None /\ ~ In u (revocations w)) ->
  NoDup (shown (uploader w)) ->
  tidy (document w) ->
  consistent w.
Proof.
  intros H1 H2 H3 H4 H5. repeat split; auto.
  apply Forall_forall. intros u Hu. apply live_iff. auto.
Qed.

Lemma consistent_elim (w : World) :
  consistent w ->
  Forall (fun u => url_id u < List.length (urls w)) (revocations w) /\
  NoDup (revocations w) /\
  (forall u, In u (shown (uploader w)) ->
             resolveURL u (urls w) <> None /\ ~ In u (revocations w)) /\
  NoDup (shown (uploader w)) /\
  tidy (document w).
Proof.
  intros (H1 & H2 & H3 & H4 & H5). repeat split; auto;
    rewrite Forall_forall in H3; apply live_iff; auto.
Qed.

Lemma runHandleFiles_consistent (browser : Browser)
    (notify : option (list VideoThumbnailData -> option JsError))
    (files : list File) (w : World) :
  consistent w -> consistent (runHandleFiles browser notify files w).
Proof.
  intros Hw. apply consistent_elim in Hw.
  destruct Hw as (Hrev & Hnd & Hlive & Hcards & Htidy).
  unfold runHandleFiles.
  pose proof (handleFiles_urls browser notify files (urls w) (uploader w)) as H.
  cbv zeta in H.
  destruct (handleFiles browser notify files (urls w)) as [[tr ended] store'].
  cbn [fst snd] in H. destruct H as ([added ->] & _ & Hnew).
  apply consistent_intro; cbn [urls revocations document uploader].
  - eapply Forall_impl; [|exact Hrev]. intros u Hu. cbn beta in *.
    rewrite length_app. lia.
  - exact Hnd.
  - intros u Hu. destruct Hnew as [Hsame|[_ Hnew]].
    + unfold shown in Hu, Hlive. rewrite Hsame in Hu.
      destruct (Hlive u Hu) as [Hres Hout]. split; [|exact Hout].
      destruct (resolveURL u (urls w)) as [target|] eqn:E; [|congruence].
      erewrite resolveURL_extend by exact E. discriminate.
    + rewrite Forall_forall in Hnew. destruct (Hnew u Hu) as (Hge & Hres & _).
      split; [exact Hres|]. intros Hin.
      rewrite Forall_forall in Hrev. specialize (Hrev u Hin).
      cbn beta in Hrev. lia.
  - destruct Hnew as [Hsame|[Hnd' _]]; [|exact Hnd'].
    unfold shown in *. now rewrite Hsame.
  - exact Htidy.
Qed.

Lemma step_consistent
    (notify : option (list VideoThumbnailData -> option JsError))
    (a : Action) (w : World) :
  consistent w -> consistent (step notify a w).
Proof.
  intros Hw. destruct a as [eventType|browser files|browser [files|]| |index|];
    cbn [step].
  - destruct Hw as (H1 & H2 & H3 & H4 & H5). unfold handleDrag.
    destruct (_ || _); [|destruct (String.eqb _ _)]; repeat split; assumption.
  - apply runHandleFiles_consistent.
    destruct Hw as (H1 & H2 & H3 & H4 & H5). repeat split; assumption.
  - now apply runHandleFiles_consistent.
  - exact Hw.
  - unfold downloadAllThumbnails.
    pose proof (downloadAll_from_spec (generatedThumbnails (uploader w)) 0
                  (document w)) as H.
    destruct (downloadAll_from 0 _ (document w)) as [[cs doc] thrown].
    destruct H as (_ & _ & _ & Hdoc).
    destruct Hw as (H1 & H2 & H3 & H4 & H5). repeat split; try assumption.
    apply (Hdoc H5).
  - destruct (nth_error (generatedThumbnails (uploader w)) index) as [data|];
      [|exact Hw].
    unfold handleDownload.
    pose proof (downloadThumbnail_spec (data_thumbnail data)
                  (downloadName index) (document w)) as H.
    destruct (downloadThumbnail _ _ (document w)) as [[cs doc] thrown].
    injection H as _ -> _.
    destruct Hw as (H1 & H2 & H3 & H4 & H5). repeat split; try assumption.
    unfold tidy in *. cbn [body next_node document].
    assert (Hfresh : ~ In (next_node (document w)) (body (document w))).
    { intros Hin. rewrite Forall_forall in H5. specialize (H5 _ Hin). lia. }
    rewrite notin_remove by exact Hfresh.
    eapply Forall_impl; [|exact H5]. intros node Hn. cbn beta in *. lia.
  - apply consistent_elim in Hw.
    destruct Hw as (Hrev & Hnd & Hlive & Hcards & Htidy).
    unfold clearThumbnails. fold (shown (uploader w)).
    apply consistent_intro; cbn [urls revocations document uploader setState].
    + apply Forall_app. split; [exact Hrev|].
      apply Forall_forall. intros u Hu. apply resolveURL_bound.
      now apply Hlive.
    + apply NoDup_app; [exact Hnd | exact Hcards |].
      intros u Hin Hu. now apply (Hlive u Hu).
    + intros u [].
    + constructor.
    + exact Htidy.
Qed.

(** X13: whatever the user does on the page (drag, drop or pick files,
    download one or all thumbnails, clear), in whatever order and however
    the browser behaves, as long as the handler calls follow one another
    (each runs to its end, or to the point where it waits for ever, before
    the next starts): every URL of a card shown is valid and not revoked,
    the URLs of the cards are pairwise distinct, and no URL is ever revoked
    twice. *)
Theorem page_stays_consistent
    (notify : option (list VideoThumbnailData -> option JsError)) :
  (forall a w, consistent w -> consistent (step notify a w)) /\
  (forall actions,
      let w := run notify actions initialWorld in
      consistent w /\
      Forall (fun u => live w u = true) (shown (uploader w)) /\
      NoDup (shown (uploader w)) /\ NoDup (revocations w)).
Proof.
  split; [intros a w; apply step_consistent|].
  intros actions.
  assert (H : forall w0, consistent w0 -> consistent (run notify actions w0)).
  { unfold run. induction actions as [|a actions IH]; intros w0 Hw0; [exact Hw0|].
    cbn [fold_left]. apply IH. now apply step_consistent. }
  assert (H0 : consistent initialWorld).
  { repeat split; constructor. }
  specialize (H initialWorld H0). cbv zeta.
  split; [exact H|]. destruct H as (_ & H2 & H3 & H4 & _). auto.
Qed.

Lemma page_stays_consistent_witness :
  consistent (step None (DropFiles sample_browser [clip; broken; archive])
                   initialWorld).
Proof.
  apply (proj1 (page_stays_consistent None)).
  repeat split; constructor.
Defined.

Lemma progress_calls_of_batch_witness :
  progress_calls (fst (fst (batchGenerateThumbnails sample_browser
                              [broken; clip; archive; broken] num_1
                              (Some silent_callback) [])))
  = [(2, 4); (3, 4)].
Proof.
  rewrite (proj1 (progress_calls_of_batch sample_browser
                    [broken; clip; archive; broken] num_1 silent_callback []
                    eq_refl)).
  reflexivity.
Defined.

(** ** Names that collide *)

(** X14: the thumbnail name depends on the stem only.  Two file names that
    differ in their final extension alone get the same thumbnail name, and
    two names with final extensions get the same thumbnail name only if
    their stems are equal. *)
Theorem thumbnail_name_depends_on_stem_only
    (a b stem_a ext_a stem_b ext_b : string) :
  FinalExtension a stem_a ext_a ->
  FinalExtension b stem_b ext_b ->
  (createThumbnailFileName a = createThumbnailFileName b <-> stem_a = stem_b).
Proof.
  intros (-> & Hna & Hca) (-> & Hnb & Hcb). unfold createThumbnailFileName.
  rewrite !replace_final_extension_strips
    by (apply ext_run_extension; assumption).
  split; [apply append_inv_tail | now intros ->].
Qed.

Lemma thumbnail_name_depends_on_stem_only_witness :
  createThumbnailFileName "intro.mp4" = createThumbnailFileName "intro.webm".
Proof.
  apply (thumbnail_name_depends_on_stem_only "intro.mp4" "intro.webm"
           "intro" "mp4" "intro" "webm").
  - split; [reflexivity|]. split; [discriminate|].
    intros c Hc. simpl in Hc.
    repeat (destruct Hc as [<-|Hc]; [split; discriminate|]). contradiction.
  - split; [reflexivity|]. split; [discriminate|].
    intros c Hc. simpl in Hc.
    repeat (destruct Hc as [<-|Hc]; [split; discriminate|]). contradiction.
  - reflexivity.
Defined.

(** ** Clearing *)

Lemma existsb_URL_eqb (u : URL) (l : list URL) :
  existsb (URL_eqb u) l = true <-> In u l.
Proof.
  rewrite existsb_exists. split.
  - intros (v & Hv & E). apply URL_eqb_eq in E. now subst v.
  - intros Hin. exists u. split; [exact Hin | now apply URL_eqb_eq].
Qed.

(** X15: [clearThumbnails] releases the URLs of the cards and nothing else:
    afterwards no card is shown, the progress is back to 0, none of the URLs
    that were shown can be dereferenced any more, every other URL is as valid
    as it was, and no URL has been minted. *)
Theorem clearThumbnails_releases_the_cards
    (notify : option (list VideoThumbnailData -> option JsError)) (w : World) :
  let w' := step notify Clear w in
  generatedThumbnails (uploader w') = [] /\
  progress (uploader w') = num_0 /\
  urls w' = urls w /\
  (forall u, In u (shown (uploader w)) -> live w' u = false) /\
  (forall u, ~ In u (shown (uploader w)) -> live w' u = live w u).
Proof.
  cbn [step clearThumbnails]. fold (shown (uploader w)).
  cbn [uploader urls generatedThumbnails progress setState].
  do 3 (split; [reflexivity|]).
  unfold live. cbn [urls revocations]. split; intros u Hu.
  - destruct (resolveURL u (urls w)); [|reflexivity].
    apply negb_false_iff. apply existsb_URL_eqb. apply in_or_app. now right.
  - destruct (resolveURL u (urls w)); [|reflexivity]. f_equal.
    rewrite existsb_app.
    destruct (existsb (URL_eqb u) (shown (uploader w))) eqn:E.
    + apply existsb_URL_eqb in E. contradiction.
    + apply orb_false_r.
Qed.

Lemma clearThumbnails_releases_the_cards_witness :
  live (step None Clear
          (step None (DropFiles sample_browser [clip]) initialWorld))
       (BlobURL 1) = false.
Proof.
  apply (clearThumbnails_releases_the_cards None
           (step None (DropFiles sample_browser [clip]) initialWorld)).
  right. left. reflexivity.
Defined.

(** ** The drop zone *)

(** X17: a drop always ends the highlight of the drop zone, whatever files
    are dropped and however their processing goes; drag events change the
    highlight and nothing else, turning it on for [dragenter] and [dragover],
    off for [dragleave], and leaving it alone for any other event. *)
Theorem drop_ends_highlight
    (notify : option (list VideoThumbnailData -> option JsError))
    (browser : Browser) (files : list File) (eventType : string) (w : World) :
  dragActive (uploader (step notify (DropFiles browser files) w)) = false /\
  (let w' := step notify (DragEvent eventType) w in
   urls w' = urls w /\ revocations w' = revocations w /\
   processing (uploader w') = processing (uploader w) /\
   progress (uploader w') = progress (uploader w) /\
   generatedThumbnails (uploader w') = generatedThumbnails (uploader w) /\
   (dragActive (uploader w') = true <->
    eventType = "dragenter" \/ eventType = "dragover" \/
    (eventType <> "dragleave" /\ dragActive (uploader w) = true))).
Proof.
  split.
  - cbn [step]. unfold runHandleFiles. cbn [urls uploader].
    destruct (handleFiles_outcome browser notify files (urls w)
                (mkUploader false (processing (uploader w))
                            (progress (uploader w))
                            (generatedThumbnails (uploader w))))
      as [(_ & _ & Hst)|[(_ & _ & _ & _ & _ & _ & _ & Hd)
                        |(_ & results & _ & _ & _ & _ & _ & _ & Hd)]];
      destruct (handleFiles browser notify files (urls w)) as [[tr ended] store'];
      cbn [fst snd uploader] in *.
    + now rewrite Hst.
    + exact Hd.
    + exact Hd.
  - cbn [step urls revocations uploader]. unfold handleDrag.
    destruct (String.eqb_spec eventType "dragenter") as [->|He];
      [cbn; intuition|].
    destruct (String.eqb_spec eventType "dragover") as [->|Ho];
      [cbn; intuition|].
    destruct (String.eqb_spec eventType "dragleave") as [->|Hl];
      cbn [orb processing progress generatedThumbnails dragActive].
    + intuition discriminate.
    + intuition.
Qed.

Lemma drop_ends_highlight_witness :
  dragActive (uploader (step None (DragEvent "dragover") initialWorld)) = true.
Proof.
  apply (proj2 (drop_ends_highlight None sample_browser [] "dragover"
                  initialWorld)).
  right. left. reflexivity.
Defined.
